(** * Email checklist: seed parser, store, ordering policy and controller

    A shallow embedding of [main.py].  Python strings are sequences of
    Unicode code points and are modelled as [list N]; the [emails] table is
    a finite map from the primary key [id] to the remaining columns; the
    window is a record holding the connection, the form inputs, the
    displayed rows and the [_loading] flag, and every handler is a function
    from that record to the next one. *)

From Stdlib Require Import ZArith NArith Ascii String.
From stdpp Require Import gmap list sorting strings.

Local Open Scope N_scope.

(** ** Python strings *)

(** A string literal of the source, as its code points. *)
Definition py (s : string) : list N :=
  (λ a, N_of_ascii a) <$> list_ascii_of_string s.

(** [str.isspace] on one character, which is also the class [\s] of [re]
    on a [str] pattern. *)
Definition isspace (c : N) : bool :=
  ((9 <=? c) && (c <=? 13)) || ((28 <=? c) && (c <=? 32))
  || (c =? 133) || (c =? 160) || (c =? 5760)
  || ((8192 <=? c) && (c <=? 8202))
  || (c =? 8232) || (c =? 8233) || (c =? 8239) || (c =? 8287)
  || (c =? 12288).

(** The line boundaries of [str.splitlines]. *)
Definition islinebreak (c : N) : bool :=
  ((10 <=? c) && (c <=? 13)) || ((28 <=? c) && (c <=? 30))
  || (c =? 133) || (c =? 8232) || (c =? 8233).

Fixpoint lstrip (s : list N) : list N :=
  match s with
  | c :: s' => if isspace c then lstrip s' else s
  | [] => []
  end.

Definition rstrip (s : list N) : list N := rev (lstrip (rev s)).

Definition strip (s : list N) : list N := rstrip (lstrip s).

(** [splitlines_from cur s]: the lines of [s], where [cur] holds (reversed)
    the characters of the line being read.  A line boundary ends the
    line, ["\r\n"] counting as one boundary; the end of the text ends a
    line only when that line is not empty. *)
Fixpoint splitlines_from (cur s : list N) : list (list N) :=
  match s with
  | [] => match cur with [] => [] | _ => [rev cur] end
  | c :: s' =>
      if islinebreak c then
        rev cur ::
          match s' with
          | c' :: s'' =>
              if (c =? 13) && (c' =? 10) then splitlines_from [] s''
              else splitlines_from [] s'
          | [] => []
          end
      else splitlines_from (c :: cur) s'
  end.

Definition splitlines (s : list N) : list (list N) := splitlines_from [] s.

(** ** The regular expressions of the seed pattern

    The fragment of [re] that the pattern is written in.  Matching is by
    backtracking: [rmatch] lists every way to match, in the order in which
    [re] tries them, and a match is the first of them. *)

Inductive regex :=
| Bol                                   (* ^ *)
| Eol                                   (* $ *)
| Chr (c : N)                           (* a literal character *)
| Cls (p : N → bool)                    (* a character class *)
| Plus (p : N → bool)                   (* greedy + on a character class *)
| Cat (r1 r2 : regex)
| Opt (r : regex)                       (* greedy ? *)
| Grp (name : string) (r : regex).      (* (?P<name>...) *)

(** A configuration is the position in the subject, the text from that
    position on, and the groups captured so far. *)
Definition config : Type := nat * list N * gmap string (list N).

Fixpoint plus_from (p : N → bool) (i : nat) (s : list N)
    : list (nat * list N) :=
  match s with
  | c :: s' => if p c then plus_from p (S i) s' ++ [(S i, s')] else []
  | [] => []
  end.

Fixpoint rmatch (r : regex) (x : config) : list config :=
  let '(i, s, g) := x in
  match r with
  | Bol => match i with O => [x] | _ => [] end
  | Eol => match s with
           | [] => [x]
           | [c] => if c =? 10 then [x] else []
           | _ => []
           end
  | Chr c => match s with
             | c' :: s' => if c' =? c then [(S i, s', g)] else []
             | [] => []
             end
  | Cls p => match s with
             | c' :: s' => if p c' then [(S i, s', g)] else []
             | [] => []
             end
  | Plus p => (λ y, (y.1, y.2, g)) <$> plus_from p i s
  | Cat r1 r2 => rmatch r1 x ≫= rmatch r2
  | Opt r => rmatch r x ++ [x]
  | Grp name r =>
      (λ y, let '(j, s', g') := y in (j, s', <[name := take (j - i) s]> g'))
        <$> rmatch r x
  end.

(** [re.compile(r).match(s)]: the groups of the first match at position 0,
    or [None]. *)
Definition re_match (r : regex) (s : list N) : option (gmap string (list N)) :=
  snd <$> head (rmatch r (O, s, ∅)).

(** [first_match r x y]: [y] is the first way in which [r] matches at [x]. *)
Definition first_match (r : regex) (x y : config) : Prop :=
  ∃ l, rmatch r x = y :: l.

(** One character of the pattern, as its code point. *)
Definition ch (a : ascii) : N := N_of_ascii a.

Definition one_of (cs : list N) (c : N) : bool := bool_decide (c ∈ cs).

(** ** Module-level constants *)

Definition STATUSES : list (list N) :=
  [py "unused"; py "using"; py "used"; py "leftover"].

Definition STATUS_SORT : list (list N) :=
  [py "using"; py "unused"; py "leftover"; py "used"].

Definition SEED_STATUS : gmap (list N) (list N) :=
  {[ py "x" := py "used"; py "o" := py "using";
     py "-" := py "leftover"; py " " := py "unused" ]}.

(** ** Seed parser *)

(** [^\* \[(?P<state>[xo\- ])\]\s+(?P<email>\S+)(?:\s+\((?P<number>[^)]+)\))?$] *)
Definition pattern : regex :=
  Cat Bol
  (Cat (Chr (ch "*")) (Cat (Chr (ch " ")) (Cat (Chr (ch "["))
  (Cat (Grp "state" (Cls (one_of (py "xo- "))))
  (Cat (Chr (ch "]"))
  (Cat (Plus isspace)
  (Cat (Grp "email" (Plus (λ c, negb (isspace c))))
  (Cat (Opt (Cat (Plus isspace)
            (Cat (Chr (ch "("))
            (Cat (Grp "number" (Plus (λ c, negb (one_of (py ")") c))))
                 (Chr (ch ")"))))))
       Eol)))))))).

(** The body of the loop of [parse_seed] for one line: [None] when the
    line is skipped by [continue], the appended row otherwise. *)
Definition parse_line (line : list N) : option (list N * list N * list N) :=
  let line := strip line in
  match line with
  | [] => None
  | _ =>
      match re_match pattern line with
      | None => None
      | Some m =>
          let state := default [] (m !! "state") in
          let email := strip (default [] (m !! "email")) in
          let number := strip (default [] (m !! "number")) in
          let status := default (py "unused") (SEED_STATUS !! state) in
          Some (email, status, number)
      end
  end.

Definition parse_seed (SEED_TEXT : list N) : list (list N * list N * list N) :=
  omap parse_line (splitlines SEED_TEXT).

Local Close Scope N_scope.

(** ** Store: the [emails] table *)

Record Row := { email : list N; status : list N; number : option (list N) }.

(** The table maps [id] to the other columns; [sqlite_sequence] is the
    largest [id] handed out so far (AUTOINCREMENT). *)
Record Db := { emails : gmap Z Row; sqlite_sequence : Z }.

(** The exceptions of [sqlite3] that the statements of the program can
    raise: a violated constraint, and "database or disk is full". *)
Inductive exn := IntegrityError | OperationalError.

Definition email_taken (e : list N) (t : gmap Z Row) : Prop :=
  map_Exists (λ _ r, email r = e) t.

Definition max_rowid (t : gmap Z Row) : Z :=
  map_fold (λ i _ acc, Z.max i acc) 0%Z t.

(** The largest [id] that a row can have, [2^63 - 1]. *)
Definition MAX_ROWID : Z := 9223372036854775807.

(** No [id] is left: the largest [id] of the table, or the largest one
    handed out so far, is the largest possible one. *)
Definition exhausted (db : Db) : Prop :=
  (MAX_ROWID ≤ Z.max (sqlite_sequence db) (max_rowid (emails db)))%Z.

(** [INSERT INTO emails (email, status, number) VALUES (?, ?, ?)]: the
    [id] is picked first, one more than the largest [id] so far, which
    fails with "database or disk is full" when no [id] is left; then the
    uniqueness of the email is checked. *)
Definition INSERT (db : Db) (e s : list N) (n : option (list N)) : exn + Db :=
  if decide (exhausted db) then inl OperationalError
  else if decide (email_taken e (emails db)) then inl IntegrityError
  else
    let i := (Z.max (sqlite_sequence db) (max_rowid (emails db)) + 1)%Z in
    inr {| emails := <[i := {| email := e; status := s; number := n |}]> (emails db);
           sqlite_sequence := i |}.

(** [UPDATE emails SET status = ? WHERE id = ?] *)
Definition UPDATE_status (db : Db) (s : list N) (i : Z) : Db :=
  {| emails := alter (λ r, {| email := email r; status := s; number := number r |})
                 i (emails db);
     sqlite_sequence := sqlite_sequence db |}.

(** [UPDATE emails SET number = ? WHERE id = ?] *)
Definition UPDATE_number (db : Db) (n : option (list N)) (i : Z) : Db :=
  {| emails := alter (λ r, {| email := email r; status := status r; number := n |})
                 i (emails db);
     sqlite_sequence := sqlite_sequence db |}.

(** [DELETE FROM emails WHERE id = ?] *)
Definition DELETE (db : Db) (i : Z) : Db :=
  {| emails := delete i (emails db); sqlite_sequence := sqlite_sequence db |}.

(** [SELECT COUNT( * ) FROM emails] *)
Definition COUNT (db : Db) : nat := size (emails db).

(** ** Ordering policy *)

(** [CASE x WHEN v0 THEN n0 WHEN v1 THEN n1 ... ELSE d END] *)
Fixpoint CASE (whens : list (list N * nat)) (d : nat) (x : list N) : nat :=
  match whens with
  | (v, n) :: whens' => if decide (x = v) then n else CASE whens' d x
  | [] => d
  end.

Definition enumerate {A} (l : list A) : list (nat * A) := imap (λ i x, (i, x)) l.

Definition STATUS_SORT_CLAUSE (status : list N) : nat :=
  CASE ((λ y, (y.2, y.1)) <$> enumerate STATUS_SORT) (length STATUS_SORT) status.

(** [ORDER BY STATUS_SORT_CLAUSE, id] on rows paired with their [id]. *)
Definition order_le (a b : Z * Row) : Prop :=
  STATUS_SORT_CLAUSE (status a.2) < STATUS_SORT_CLAUSE (status b.2)
  ∨ (STATUS_SORT_CLAUSE (status a.2) = STATUS_SORT_CLAUSE (status b.2)
     ∧ (a.1 ≤ b.1)%Z).

Global Instance order_le_dec a b : Decision (order_le a b).
Proof. unfold order_le. apply _. Defined.

(** [SELECT id, email, status, number FROM emails ORDER BY ..., id] *)
Definition SELECT_ordered (db : Db) : list (Z * Row) :=
  merge_sort order_le (map_to_list (emails db)).

(** ** The window *)

(** A [QTableWidgetItem]: its text and its [UserRole] data. *)
Record Item := { text : list N; data : option Z }.

(** One displayed row: the email item (column 0), the current text of the
    status box (column 1) and the number item (column 2). *)
Record ViewRow := { email_item : Item; status_box : list N; number_item : Item }.

Record App := {
  _loading : bool;
  conn : Db;
  email_input : list N;
  status_input : list N;
  number_input : list N;
  table : list ViewRow;
  (** the selected items of [table], as (row, column) *)
  selectedItems : list (nat * nat)
}.

Inductive StandardButton := Yes | No.

(** What a handler showed with [QMessageBox.warning], by its title. *)
Inductive warning := Missing_Email | Duplicate_Email.

(** How a call of a handler ends: it returns, having shown a warning or
    none, or it raises an exception that it does not catch.  The window
    that comes with the outcome is the window after the call. *)
Inductive outcome := Returned (shown : option warning) | Raised (x : exn).

Definition set_loading (b : bool) (w : App) : App :=
  {| _loading := b; conn := conn w; email_input := email_input w;
     status_input := status_input w; number_input := number_input w;
     table := table w; selectedItems := selectedItems w |}.

Definition set_conn (db : Db) (w : App) : App :=
  {| _loading := _loading w; conn := db; email_input := email_input w;
     status_input := status_input w; number_input := number_input w;
     table := table w; selectedItems := selectedItems w |}.

Definition set_table (t : list ViewRow) (sel : list (nat * nat)) (w : App) : App :=
  {| _loading := _loading w; conn := conn w; email_input := email_input w;
     status_input := status_input w; number_input := number_input w;
     table := t; selectedItems := sel |}.

Definition clear_inputs (w : App) : App :=
  {| _loading := _loading w; conn := conn w; email_input := [];
     status_input := status_input w; number_input := [];
     table := table w; selectedItems := selectedItems w |}.

Definition _init_db (disk : option Db) : Db :=
  default {| emails := ∅; sqlite_sequence := 0 |} disk.

(** [executemany]: the rows are inserted in order; the first failure
    raises and nothing of the batch is committed. *)
Fixpoint executemany (db : Db) (rows : list (list N * list N * list N)) : exn + Db :=
  match rows with
  | [] => inr db
  | (e, s, n) :: rows' =>
      match INSERT db e s (Some n) with
      | inl x => inl x
      | inr db' => executemany db' rows'
      end
  end.

Definition _ensure_seed_data (SEED_TEXT : list N) (db : Db) : exn + Db :=
  if decide (COUNT db ≠ 0) then inr db
  else
    let seed_rows := parse_seed SEED_TEXT in
    match seed_rows with
    | [] => inr db
    | _ => executemany db seed_rows
    end.

Definition _build_ui (db : Db) : App :=
  {| _loading := false; conn := db; email_input := [];
     status_input := py "unused"; number_input := [];
     table := []; selectedItems := [] |}.

(** The body of the loop of [_load_rows]: the row shown for one record. *)
Definition view_row (x : Z * Row) : ViewRow :=
  let '(row_id, r) := x in
  {| email_item := {| text := email r; data := Some row_id |};
     status_box := if decide (status r ∈ STATUSES) then status r else py "unused";
     number_item := {| text := default [] (number r); data := Some row_id |} |}.

Definition _load_rows (w : App) : App :=
  let w := set_loading true w in
  let w := set_table [] [] w in
  let w := foldl (λ w x, set_table (table w ++ [view_row x]) (selectedItems w) w)
             w (SELECT_ordered (conn w)) in
  set_loading false w.

(** [__init__] on the database found on disk ([None] when the table does
    not exist yet). *)
Definition __init__ (SEED_TEXT : list N) (disk : option Db) : exn + App :=
  let db := _init_db disk in
  match _ensure_seed_data SEED_TEXT db with
  | inl x => inl x
  | inr db => inr (_load_rows (_build_ui db))
  end.

Definition or_None (s : list N) : option (list N) :=
  match s with [] => None | _ => Some s end.

Definition _add_email (w : App) : App * outcome :=
  let email := strip (email_input w) in
  match email with
  | [] => (w, Returned (Some Missing_Email))
  | _ =>
      let status := status_input w in
      let number := or_None (strip (number_input w)) in
      match INSERT (conn w) email status number with
      | inl IntegrityError => (w, Returned (Some Duplicate_Email))
      | inl x => (w, Raised x)
      | inr db => (_load_rows (clear_inputs (set_conn db w)), Returned None)
      end
  end.

Definition _row_id_for_row (w : App) (row : nat) : option Z :=
  match table w !! row with
  | None => None
  | Some r => data (email_item r)
  end.

(** [sorted(rows, reverse=True)] on a set of row numbers. *)
Definition sorted_reverse (rows : gset nat) : list nat :=
  reverse (merge_sort le (elements rows)).

(** [confirm] is the button the user answers the question with. *)
Definition _delete_selected (w : App) (confirm : StandardButton) : App :=
  let rows : gset nat := list_to_set (fst <$> selectedItems w) in
  if decide (rows = ∅) then w
  else
    match confirm with
    | No => w
    | Yes =>
        let db :=
          foldl (λ db row,
                   match _row_id_for_row w row with
                   | None => db
                   | Some row_id => DELETE db row_id
                   end) (conn w) (sorted_reverse rows) in
        _load_rows (set_conn db w)
    end.

Definition _update_status (w : App) (row_id : Z) (status : list N) : App :=
  if _loading w then w
  else if decide (status ∉ STATUSES) then w
  else set_conn (UPDATE_status (conn w) status row_id) w.

(** The item an [itemChanged] signal carries, with its place in the table. *)
Record changed := { row : nat; column : nat; item : Item }.

Definition _on_item_changed (w : App) (c : changed) : App :=
  if _loading w then w
  else if decide (column c ≠ 2) then w
  else
    let row_id :=
      match data (item c) with
      | None => _row_id_for_row w (row c)
      | Some i => Some i
      end in
    match row_id with
    | None => w
    | Some row_id =>
        let number := or_None (strip (text (item c))) in
        set_conn (UPDATE_number (conn w) number row_id) w
    end.

(** ** Documents as lines *)

(** The text made of the given lines, separated by ["\n"]. *)
Fixpoint join_lines (ls : list (list N)) : list N :=
  match ls with
  | [] => []
  | [l] => l
  | l :: ls' => l ++ 10%N :: join_lines ls'
  end.

Definition no_linebreak (l : list N) : Prop :=
  Forall (λ c, islinebreak c = false) l.


(** ** The last parenthesized group of a line

    The reading of "the text between the last matching parentheses on the
    line" that the seed format is described with: the last [)] of the
    line, the [(] that it closes, and what stands between the two. *)

(** [opening depth before acc]: [before] is the text in front of a [)],
    reversed, and [acc] what has been read of it leftwards; the result is
    the text from the [(] that the [)] closes. *)
Fixpoint opening (depth : nat) (before acc : list N) : option (list N) :=
  match before with
  | [] => None
  | c :: before' =>
      if (c =? ch ")")%N then opening (S depth) before' (c :: acc)
      else if (c =? ch "(")%N then
        match depth with
        | O => Some acc
        | S depth' => opening depth' before' (c :: acc)
        end
      else opening depth before' (c :: acc)
  end.

(** The text in front of the last [)], reversed. *)
Fixpoint before_last_close (rev_line : list N) : option (list N) :=
  match rev_line with
  | [] => None
  | c :: r => if (c =? ch ")")%N then Some r else before_last_close r
  end.

Definition last_parenthesized (line : list N) : option (list N) :=
  before_last_close (rev line) ≫= λ before, opening O before [].

(** The markers of the seed format with the status each stands for. *)
Definition marker_status : list (N * list N) :=
  [(ch "x", py "used"); (ch "o", py "using");
   (ch "-", py "leftover"); (ch " ", py "unused")].

(** ** Scenarios *)

(** The user typing an email, choosing a status and typing a number in
    the form. *)
Definition fill_form (e s n : list N) (w : App) : App :=
  {| _loading := _loading w; conn := conn w; email_input := e;
     status_input := s; number_input := n;
     table := table w; selectedItems := selectedItems w |}.

(** Filling the form and pressing Add. *)
Definition add (e s n : string) (w : App) : App :=
  (_add_email (fill_form (py e) (py s) (py n) w)).1.

(** The user selecting the given items of the table. *)
Definition select (sel : list (nat * nat)) (w : App) : App :=
  set_table (table w) sel w.

(** The identifiers that the selected rows of the view resolve to. *)
Definition resolved_ids (w : App) : list Z :=
  omap (_row_id_for_row w) (fst <$> selectedItems w).

(** ** Constraints and invariants of the table *)

(** The [id] that the next [INSERT] assigns. *)
Definition next_id (db : Db) : Z :=
  (Z.max (sqlite_sequence db) (max_rowid (emails db)) + 1)%Z.

(** [email TEXT NOT NULL UNIQUE]: no two rows with the same email. *)
Definition unique_email (db : Db) : Prop :=
  ∀ i j r r', emails db !! i = Some r → emails db !! j = Some r' →
              email r = email r' → i = j.

(** Every [id] of the table has been handed out by the sequence. *)
Definition ids_issued (db : Db) : Prop :=
  ∀ i, is_Some (emails db !! i) → (i ≤ sqlite_sequence db)%Z.

Definition statuses_valid (db : Db) : Prop :=
  ∀ i r, emails db !! i = Some r → status r ∈ STATUSES.

(** ** Events

    The signals that [_build_ui] and [_load_rows] connect, and the edits of
    the form and of the selection that the widgets take without a
    handler.  [handle] gives the window after the handler has run; when
    the handler raises, that is the window as the handler left it.  The
    rows of [table] are the rows as the last reload built them: what a
    status box or a number item shows after being edited in place is kept
    by its widget and read by no handler, which use the [id]s that the
    items carry. *)
Inductive event :=
| Edit_form (e s n : list N)
| Select_items (sel : list (nat * nat))
| Add_clicked
| Delete_clicked (confirm : StandardButton)
| Status_changed (row_id : Z) (s : list N)
| Item_changed (c : changed).

Definition handle (w : App) (ev : event) : App :=
  match ev with
  | Edit_form e s n => fill_form e s n w
  | Select_items sel => select sel w
  | Add_clicked => (_add_email w).1
  | Delete_clicked confirm => _delete_selected w confirm
  | Status_changed row_id s => _update_status w row_id s
  | Item_changed c => _on_item_changed w c
  end.

(** The status box of the form offers the items of [STATUSES] only. *)
Definition offered (ev : event) : Prop :=
  match ev with
  | Edit_form _ s _ => s ∈ STATUSES
  | _ => True
  end.

(** The [UserRole] data of the email items on display, top to bottom. *)
Definition shown_ids (w : App) : list (option Z) :=
  (λ r, data (email_item r)) <$> table w.

(** The window between two events: not reloading, the constraints of the
    table hold, and the rows on display are the entries of the table,
    each once. *)
Definition consistent (w : App) : Prop :=
  _loading w = false
  ∧ unique_email (conn w)
  ∧ ids_issued (conn w)
  ∧ NoDup (shown_ids w)
  ∧ (∀ o, o ∈ shown_ids w ↔ ∃ i, o = Some i ∧ is_Some (emails (conn w) !! i)).

(** The text made of the given lines, each followed by [sep]. *)
Definition end_lines (sep : list N) (ls : list (list N)) : list N :=
  ls ≫= λ l, l ++ sep.

(** A number as Add and the number edit store it: absent, or a text that
    is not empty and neither starts nor ends with whitespace. *)
Definition normalized (n : option (list N)) : Prop :=
  match n with
  | None => True
  | Some t => t ≠ [] ∧ strip t = t
  end.

(** What one event can do to the table: nothing, one [INSERT] of a trimmed
    email that is not empty, with the status [s0] chosen in the form and a
    normalized number, one [UPDATE] of a status to a member of [STATUSES],
    one [UPDATE] of a number to a normalized one, or a series of
    [DELETE]s. *)
Inductive db_step (s0 : list N) (db : Db) : Db → Prop :=
| step_none : db_step s0 db db
| step_insert e n db' :
    e ≠ [] → strip e = e → normalized n →
    INSERT db e s0 n = inr db' → db_step s0 db db'
| step_status s i : s ∈ STATUSES → db_step s0 db (UPDATE_status db s i)
| step_number n i : normalized n → db_step s0 db (UPDATE_number db n i)
| step_delete ids : db_step s0 db (foldl DELETE db ids).

(** A line terminator: one line boundary character, or ["\r\n"]. *)
Definition terminator (sep : list N) : Prop :=
  sep = [13%N; 10%N] ∨ ∃ c, sep = [c] ∧ islinebreak c = true.

(** The database that [__init__] finds: none yet, or one that satisfies
    the predicate. *)
Definition on_disk (P : Db → Prop) (disk : option Db) : Prop :=
  match disk with Some db => P db | None => True end.
(** * Properties *)

(** ** Strings *)

Section strings.
Local Open Scope N_scope.

Lemma lstrip_cons_nonspace s c w : lstrip s = c :: w → isspace c = false.
Proof.
  induction s as [|a s IH]; simpl; [done|].
  destruct (isspace a) eqn:Ha; [done|]. by intros [= -> _].
Qed.

Lemma lstrip_nonspace c w : isspace c = false → lstrip (c :: w) = c :: w.
Proof. intros H. simpl. by rewrite H. Qed.

Lemma rstrip_snoc_nonspace s w c : rstrip s = w ++ [c] → isspace c = false.
Proof.
  unfold rstrip. intros H. apply (f_equal (@rev N)) in H.
  rewrite rev_involutive, rev_app_distr in H. simpl in H.
  by apply lstrip_cons_nonspace in H.
Qed.

Lemma rstrip_nonspace w c : isspace c = false → rstrip (w ++ [c]) = w ++ [c].
Proof.
  intros H. unfold rstrip. rewrite rev_app_distr. simpl.
  rewrite H. simpl. by rewrite rev_involutive.
Qed.

(** What [strip] returns neither starts nor ends with whitespace. *)
Lemma strip_snoc_nonspace s w c : strip s = w ++ [c] → isspace c = false.
Proof. apply rstrip_snoc_nonspace. Qed.

Lemma strip_fixed c w d :
  isspace c = false → isspace d = false → strip (c :: w ++ [d]) = c :: w ++ [d].
Proof.
  intros Hc Hd. unfold strip. rewrite lstrip_nonspace by done.
  by apply (rstrip_nonspace (c :: w) d).
Qed.

Lemma lstrip_all_nonspace e : Forall (λ c, isspace c = false) e → lstrip e = e.
Proof. destruct 1 as [|c e Hc _]; [done|]. by apply lstrip_nonspace. Qed.

Lemma strip_all_nonspace e : Forall (λ c, isspace c = false) e → strip e = e.
Proof.
  intros He. unfold strip, rstrip. rewrite (lstrip_all_nonspace e He).
  rewrite lstrip_all_nonspace; [apply rev_involutive|].
  apply Forall_forall. intros c Hc%list_elem_of_In%in_rev%list_elem_of_In.
  by eapply Forall_forall in He.
Qed.

Lemma strip_ends s c w w' d :
  s = c :: w → s = w' ++ [d] → isspace c = false → isspace d = false →
  strip s = s.
Proof.
  intros Hc Hd ? ?. unfold strip. rewrite Hc, lstrip_nonspace by done.
  rewrite <- Hc, Hd. by apply rstrip_nonspace.
Qed.

Lemma strip_nil : strip [] = [].
Proof. reflexivity. Qed.

Lemma islinebreak_isspace c : islinebreak c = true → isspace c = true.
Proof.
  unfold islinebreak, isspace. intros H.
  repeat (apply orb_prop in H as [H|H]);
    repeat (apply andb_prop in H as [? ?]);
    repeat match goal with
           | H : (_ <=? _) = true |- _ => apply N.leb_le in H
           | H : (_ =? _) = true |- _ => apply N.eqb_eq in H
           end;
    repeat rewrite orb_true_iff; repeat rewrite andb_true_iff;
    repeat rewrite N.leb_le; repeat rewrite N.eqb_eq; lia.
Qed.
End strings.

(** ** Lines *)

Section lines.
Local Open Scope N_scope.

Lemma splitlines_from_newline cur s :
  splitlines_from cur (10 :: s) = rev cur :: splitlines_from [] s.
Proof. by destruct s. Qed.

Lemma splitlines_from_app cur l s :
  no_linebreak l → splitlines_from cur (l ++ s) = splitlines_from (rev l ++ cur) s.
Proof.
  intros Hl. revert cur. induction Hl as [|c l Hc _ IH]; intros cur; [done|].
  simpl. rewrite Hc, IH. by rewrite <- app_assoc.
Qed.

Lemma splitlines_line l :
  no_linebreak l → splitlines l = match l with [] => [] | _ => [l] end.
Proof.
  intros Hl. unfold splitlines.
  rewrite <- (app_nil_r l) at 1. rewrite splitlines_from_app by done.
  rewrite app_nil_r. simpl. destruct (rev l) eqn:E.
  - apply (f_equal (@rev N)) in E. rewrite rev_involutive in E. by subst.
  - rewrite <- E, rev_involutive. destruct l; [done|done].
Qed.

Lemma splitlines_join_cons l ls :
  no_linebreak l → ls ≠ [] →
  splitlines (join_lines (l :: ls)) = l :: splitlines (join_lines ls).
Proof.
  intros Hl Hls. destruct ls as [|l2 ls]; [done|].
  unfold splitlines. change (join_lines (l :: l2 :: ls))
    with (l ++ 10 :: join_lines (l2 :: ls)).
  rewrite splitlines_from_app by done.
  rewrite splitlines_from_newline, app_nil_r. by rewrite rev_involutive.
Qed.
End lines.

(** ** The matcher *)

Section matcher.
Local Open Scope N_scope.
Implicit Types (i j : nat) (s w : list N) (g : gmap string (list N)).
Implicit Types (x y z : config) (p : N → bool) (r : regex).

Lemma plus_from_inv p i s j s' :
  (j, s') ∈ plus_from p i s →
  ∃ w, w ≠ [] ∧ Forall (λ c, p c = true) w ∧ s = w ++ s' ∧ j = (i + length w)%nat.
Proof.
  revert i. induction s as [|c s IH]; intros i; simpl; [by intros ?%elem_of_nil|].
  destruct (p c) eqn:Hc; [|by intros ?%elem_of_nil].
  rewrite elem_of_app, list_elem_of_singleton. intros [H|[= -> ->]].
  - destruct (IH _ H) as (w & _ & Hw & -> & ->).
    exists (c :: w). repeat split; [done|by constructor|simpl; lia].
  - exists [c]. repeat split; [done|by repeat constructor|simpl; lia].
Qed.

Lemma rmatch_Bol_inv i s g y : y ∈ rmatch Bol (i, s, g) → i = O ∧ y = (i, s, g).
Proof.
  simpl. destruct i; [|by intros ?%elem_of_nil].
  by intros ->%list_elem_of_singleton.
Qed.

Lemma rmatch_Eol_inv i s g y :
  y ∈ rmatch Eol (i, s, g) → (s = [] ∨ s = [10]) ∧ y = (i, s, g).
Proof.
  simpl. destruct s as [|c [|c' s]]; [| |by intros ?%elem_of_nil].
  - intros ->%list_elem_of_singleton. auto.
  - destruct (c =? 10) eqn:Hc; [|by intros ?%elem_of_nil].
    apply N.eqb_eq in Hc as ->. intros ->%list_elem_of_singleton. auto.
Qed.

Lemma rmatch_Chr_inv c i s g y :
  y ∈ rmatch (Chr c) (i, s, g) → ∃ s', s = c :: s' ∧ y = (S i, s', g).
Proof.
  simpl. destruct s as [|c' s']; [by intros ?%elem_of_nil|].
  destruct (c' =? c) eqn:Hc; [|by intros ?%elem_of_nil].
  apply N.eqb_eq in Hc as ->. intros ->%list_elem_of_singleton. eauto.
Qed.

Lemma rmatch_Cls_inv p i s g y :
  y ∈ rmatch (Cls p) (i, s, g) →
  ∃ c s', s = c :: s' ∧ p c = true ∧ y = (S i, s', g).
Proof.
  simpl. destruct s as [|c' s']; [by intros ?%elem_of_nil|].
  destruct (p c') eqn:Hc; [|by intros ?%elem_of_nil].
  intros ->%list_elem_of_singleton. eauto.
Qed.

Lemma rmatch_Plus_inv p i s g y :
  y ∈ rmatch (Plus p) (i, s, g) →
  ∃ w s', w ≠ [] ∧ Forall (λ c, p c = true) w ∧ s = w ++ s'
          ∧ y = ((i + length w)%nat, s', g).
Proof.
  simpl. intros ([j s'] & -> & H)%list_elem_of_fmap.
  apply plus_from_inv in H as (w & ? & ? & -> & ->). by exists w, s'.
Qed.

Lemma rmatch_Cat_inv r1 r2 x y :
  y ∈ rmatch (Cat r1 r2) x → ∃ z, z ∈ rmatch r1 x ∧ y ∈ rmatch r2 z.
Proof.
  destruct x as [[i s] g]. simpl. intros (z & ? & ?)%list_elem_of_bind. eauto.
Qed.

Lemma rmatch_Opt_inv r x y : y ∈ rmatch (Opt r) x → y ∈ rmatch r x ∨ y = x.
Proof.
  destruct x as [[i s] g]. simpl.
  rewrite elem_of_app, list_elem_of_singleton. tauto.
Qed.

Lemma rmatch_Grp_inv name r i s g y :
  y ∈ rmatch (Grp name r) (i, s, g) →
  ∃ j s' g', (j, s', g') ∈ rmatch r (i, s, g)
             ∧ y = (j, s', <[name := take (j - i) s]> g').
Proof.
  simpl. intros ([[j s'] g'] & -> & H)%list_elem_of_fmap. eauto 10.
Qed.

Lemma take_span j i w s' : j = (i + length w)%nat → take (j - i) (w ++ s') = w.
Proof.
  intros ->. replace (i + length w - i)%nat with (length w) by lia.
  by rewrite take_app_length.
Qed.

Lemma plus_from_max p i w s' :
  w ≠ [] → Forall (λ c, p c = true) w →
  match s' with [] => True | c :: _ => p c = false end →
  ∃ l, plus_from p i (w ++ s') = ((i + length w)%nat, s') :: l.
Proof.
  intros Hw Fw Hs'. revert i. induction Fw as [|c w Hc Fw IH]; intros i; [done|].
  simpl. rewrite Hc. destruct w as [|c' w].
  - exists []. simpl. replace (i + 1)%nat with (S i) by lia.
    destruct s' as [|d s']; [done|]. simpl. by rewrite Hs'.
  - destruct (IH ltac:(done) (S i)) as [l Hl]. rewrite Hl.
    eexists. simpl. do 2 f_equal. lia.
Qed.

Lemma first_Bol s g : first_match Bol (O, s, g) (O, s, g).
Proof. by exists []. Qed.

Lemma first_Eol i g : first_match Eol (i, [], g) (i, [], g).
Proof. by exists []. Qed.

Lemma first_Chr c i s g : first_match (Chr c) (i, c :: s, g) (S i, s, g).
Proof. exists []. simpl. by rewrite N.eqb_refl. Qed.

Lemma first_Cls p c i s g :
  p c = true → first_match (Cls p) (i, c :: s, g) (S i, s, g).
Proof. intros H. exists []. simpl. by rewrite H. Qed.

Lemma first_Plus p i w s' g :
  w ≠ [] → Forall (λ c, p c = true) w →
  match s' with [] => True | c :: _ => p c = false end →
  first_match (Plus p) (i, w ++ s', g) ((i + length w)%nat, s', g).
Proof.
  intros Hw Fw Hs'. destruct (plus_from_max p i w s' Hw Fw Hs') as [l Hl].
  unfold first_match. simpl. rewrite Hl. by eexists.
Qed.

Lemma first_Cat r1 r2 x y z :
  first_match r1 x y → first_match r2 y z → first_match (Cat r1 r2) x z.
Proof.
  intros [l1 H1] [l2 H2]. destruct x as [[i s] g].
  exists (l2 ++ (l1 ≫= rmatch r2)).
  change (rmatch (Cat r1 r2) (i, s, g)) with (rmatch r1 (i, s, g) ≫= rmatch r2).
  rewrite H1. change (y :: l1) with ([y] ++ l1).
  rewrite bind_app. simpl. by rewrite H2, app_nil_r.
Qed.

Lemma first_Opt r x y : first_match r x y → first_match (Opt r) x y.
Proof.
  intros [l H]. destruct x as [[i s] g]. unfold first_match.
  change (rmatch (Opt r) (i, s, g)) with (rmatch r (i, s, g) ++ [(i, s, g)]).
  rewrite H. by eexists.
Qed.

Lemma first_Opt_skip r x : rmatch r x = [] → first_match (Opt r) x x.
Proof.
  intros H. destruct x as [[i s] g]. exists [].
  change (rmatch (Opt r) (i, s, g)) with (rmatch r (i, s, g) ++ [(i, s, g)]).
  by rewrite H.
Qed.

Lemma first_Grp name r i s g j s' g' :
  first_match r (i, s, g) (j, s', g') →
  first_match (Grp name r) (i, s, g) (j, s', <[name := take (j - i) s]> g').
Proof.
  intros [l H]. unfold first_match.
  change (rmatch (Grp name r) (i, s, g))
    with ((λ y : config, let '(j, s', g') := y in
                         (j, s', <[name := take (j - i) s]> g'))
            <$> rmatch r (i, s, g)).
  rewrite H. by eexists.
Qed.

Lemma first_match_re_match r s j s' m :
  first_match r (O, s, ∅) (j, s', m) → re_match r s = Some m.
Proof. intros [l H]. unfold re_match. by rewrite H. Qed.

Lemma re_match_elem r s m :
  re_match r s = Some m → ∃ j s', (j, s', m) ∈ rmatch r (O, s, ∅).
Proof.
  unfold re_match. destruct (rmatch r (O, s, ∅)) as [|[[j s'] g] l] eqn:E; [done|].
  simpl. intros [= <-]. exists j, s'. by left.
Qed.
End matcher.

(** ** The seed pattern *)

Section pattern.
Local Open Scope N_scope.

(** What a match of [pattern] says about the subject and the groups. *)
Lemma pattern_inv line m :
  re_match pattern line = Some m →
  ∃ st ws e rest,
    line = ch "*" :: ch " " :: ch "[" :: st :: ch "]" :: ws ++ e ++ rest
    ∧ st ∈ py "xo- "
    ∧ ws ≠ [] ∧ Forall (λ c, isspace c = true) ws
    ∧ e ≠ [] ∧ Forall (λ c, isspace c = false) e
    ∧ m !! "state" = Some [st] ∧ m !! "email" = Some e
    ∧ ((m !! "number" = None ∧ (rest = [] ∨ rest = [10]))
       ∨ ∃ ws' t tail,
           rest = ws' ++ ch "(" :: t ++ ch ")" :: tail
           ∧ ws' ≠ [] ∧ Forall (λ c, isspace c = true) ws'
           ∧ t ≠ [] ∧ Forall (λ c, c ≠ ch ")") t
           ∧ (tail = [] ∨ tail = [10])
           ∧ m !! "number" = Some t).
Proof.
  intros (j & s' & H)%re_match_elem. unfold pattern in H.
  apply rmatch_Cat_inv in H as (x0 & [_ ->]%rmatch_Bol_inv & H).
  apply rmatch_Cat_inv in H as (x1 & (s1 & -> & ->)%rmatch_Chr_inv & H).
  apply rmatch_Cat_inv in H as (x2 & (s2 & -> & ->)%rmatch_Chr_inv & H).
  apply rmatch_Cat_inv in H as (x3 & (s3 & -> & ->)%rmatch_Chr_inv & H).
  apply rmatch_Cat_inv in H as (x4 & H4 & H).
  apply rmatch_Grp_inv in H4 as (j4 & s4 & g4 & H4 & ->).
  apply rmatch_Cls_inv in H4 as (st & s4' & -> & Hst & [= -> -> ->]).
  apply rmatch_Cat_inv in H as (x5 & (s5 & -> & ->)%rmatch_Chr_inv & H).
  apply rmatch_Cat_inv in H as (x6 & (ws & s6 & Hws & Fws & -> & ->)%rmatch_Plus_inv & H).
  apply rmatch_Cat_inv in H as (x7 & H7 & H).
  apply rmatch_Grp_inv in H7 as (j7 & s7 & g7 & H7 & ->).
  apply rmatch_Plus_inv in H7 as (e & rest & He & Fe & -> & [= -> -> ->]).
  rewrite (take_span _ _ e rest) in H by (simpl; lia).
  exists st, ws, e, rest. split; [done|].
  split; [by apply bool_decide_eq_true in Hst|].
  split; [done|]. split; [done|]. split; [done|].
  split; [by eapply Forall_impl; [exact Fe|]; intros c ?%negb_true_iff|].
  apply rmatch_Cat_inv in H as (x8 & [H8| ->]%rmatch_Opt_inv & H).
  - apply rmatch_Cat_inv in H8
      as (x9 & (ws' & s9 & Hws' & Fws' & -> & ->)%rmatch_Plus_inv & H8).
    apply rmatch_Cat_inv in H8 as (x10 & (s10 & -> & ->)%rmatch_Chr_inv & H8).
    apply rmatch_Cat_inv in H8 as (x11 & H11 & H8).
    apply rmatch_Grp_inv in H11 as (j11 & s11 & g11 & H11 & ->).
    apply rmatch_Plus_inv in H11 as (t & tail & Ht & Ft & -> & [= -> -> ->]).
    rewrite (take_span _ _ t tail) in H8 by (simpl; lia).
    apply rmatch_Chr_inv in H8 as (tail' & -> & ->).
    apply rmatch_Eol_inv in H as [Hend [= -> -> ->]].
    split; [by simplify_map_eq|]. split; [by simplify_map_eq|].
    right. exists ws', t, tail'.
    split; [done|]. split; [done|]. split; [done|]. split; [done|].
    split; [|by simplify_map_eq].
    eapply Forall_impl; [exact Ft|]. intros c Hc%negb_true_iff ->.
    by vm_compute in Hc.
  - apply rmatch_Eol_inv in H as [Hend [= -> -> ->]].
    split; [by simplify_map_eq|]. split; [by simplify_map_eq|].
    left. split; [by simplify_map_eq|done].
Qed.

Lemma nonspace_class e :
  Forall (λ c, isspace c = false) e → Forall (λ c, negb (isspace c) = true) e.
Proof. intros H. eapply Forall_impl; [exact H|]. by intros c ->. Qed.

Lemma nonclose_class t :
  Forall (λ c, c ≠ ch ")") t → Forall (λ c, negb (one_of (py ")") c) = true) t.
Proof.
  intros H. eapply Forall_impl; [exact H|].
  intros c Hc. apply negb_true_iff, bool_decide_eq_false.
  by intros ->%list_elem_of_singleton.
Qed.

(** A line of the form [* [<state>] <email>] is matched. *)
Lemma pattern_plain st ws e :
  st ∈ py "xo- " →
  ws ≠ [] → Forall (λ c, isspace c = true) ws →
  e ≠ [] → Forall (λ c, isspace c = false) e →
  ∃ m, re_match pattern
         (ch "*" :: ch " " :: ch "[" :: st :: ch "]" :: ws ++ e ++ []) = Some m
       ∧ m !! "state" = Some [st] ∧ m !! "email" = Some e
       ∧ m !! "number" = None.
Proof.
  intros Hst Hws Fws He Fe. eexists. split.
  - eapply first_match_re_match. unfold pattern.
    eapply first_Cat; [apply first_Bol|].
    do 3 (eapply first_Cat; [apply first_Chr|]).
    eapply first_Cat; [apply first_Grp, first_Cls; by apply bool_decide_eq_true|].
    eapply first_Cat; [apply first_Chr|].
    eapply first_Cat; [apply first_Plus; [done..|]|].
    { destruct Fe as [|c e Hc _]; [done|]. exact Hc. }
    eapply first_Cat; [apply first_Grp, first_Plus; [done|by apply nonspace_class|done]|].
    eapply first_Cat; [by apply first_Opt_skip|]. apply first_Eol.
  - rewrite (take_span _ _ e []) by lia. by simplify_map_eq.
Qed.

(** A line of the form [* [<state>] <email> (<number>)] is matched. *)
Lemma pattern_numbered st ws e ws' t :
  st ∈ py "xo- " →
  ws ≠ [] → Forall (λ c, isspace c = true) ws →
  e ≠ [] → Forall (λ c, isspace c = false) e →
  ws' ≠ [] → Forall (λ c, isspace c = true) ws' →
  t ≠ [] → Forall (λ c, c ≠ ch ")") t →
  ∃ m, re_match pattern
         (ch "*" :: ch " " :: ch "[" :: st :: ch "]"
            :: ws ++ e ++ ws' ++ ch "(" :: t ++ [ch ")"]) = Some m
       ∧ m !! "state" = Some [st] ∧ m !! "email" = Some e
       ∧ m !! "number" = Some t.
Proof.
  intros Hst Hws Fws He Fe Hws' Fws' Ht Ft. eexists. split.
  - eapply first_match_re_match. unfold pattern.
    eapply first_Cat; [apply first_Bol|].
    do 3 (eapply first_Cat; [apply first_Chr|]).
    eapply first_Cat; [apply first_Grp, first_Cls; by apply bool_decide_eq_true|].
    eapply first_Cat; [apply first_Chr|].
    eapply first_Cat; [apply first_Plus; [done..|]|].
    { destruct Fe as [|c e Hc _]; [done|]. exact Hc. }
    eapply first_Cat; [apply first_Grp, first_Plus; [done|by apply nonspace_class|]|].
    { destruct Fws' as [|c ws' Hc _]; [done|]. simpl. by rewrite Hc. }
    eapply first_Cat; [|apply first_Eol].
    apply first_Opt.
    eapply first_Cat; [by apply first_Plus|].
    eapply first_Cat; [apply first_Chr|].
    eapply first_Cat; [apply first_Grp, first_Plus; [done|by apply nonclose_class|]|].
    { by vm_compute. }
    apply first_Chr.
  - rewrite (take_span _ _ e (ws' ++ ch "(" :: t ++ [ch ")"])) by lia.
    rewrite (take_span _ _ t [ch ")"]) by lia. by simplify_map_eq.
Qed.
End pattern.

(** ** One line of the seed document *)

Section parse_line.
Local Open Scope N_scope.

Lemma SEED_STATUS_state st :
  st ∈ py "xo- " → is_Some (SEED_STATUS !! [st]).
Proof.
  intros H. vm_compute in H.
  repeat (apply elem_of_cons in H as [->|H]); [by eexists; vm_compute..|].
  by apply elem_of_nil in H.
Qed.

Lemma parse_line_None line :
  parse_line line = None ↔ strip line = [] ∨ re_match pattern (strip line) = None.
Proof.
  unfold parse_line. destruct (strip line) as [|c l]; [by split; auto|].
  destruct (re_match pattern (c :: l)); [|by split; auto].
  split; [done|]. by intros [?|?].
Qed.

(** A line that [parse_seed] takes a row from: its form after [strip],
    and where the three components of the row come from. *)
Lemma parse_line_inv line e s n :
  parse_line line = Some (e, s, n) →
  ∃ m st ws rest,
    re_match pattern (strip line) = Some m
    ∧ strip line = ch "*" :: ch " " :: ch "[" :: st :: ch "]" :: ws ++ e ++ rest
    ∧ st ∈ py "xo- " ∧ SEED_STATUS !! [st] = Some s
    ∧ ws ≠ [] ∧ Forall (λ c, isspace c = true) ws
    ∧ e ≠ [] ∧ Forall (λ c, isspace c = false) e
    ∧ ((m !! "number" = None ∧ rest = [] ∧ n = [])
       ∨ ∃ ws' t,
           m !! "number" = Some t
           ∧ rest = ws' ++ ch "(" :: t ++ [ch ")"]
           ∧ ws' ≠ [] ∧ Forall (λ c, isspace c = true) ws'
           ∧ t ≠ [] ∧ Forall (λ c, c ≠ ch ")") t
           ∧ n = strip t).
Proof.
  unfold parse_line. destruct (strip line) as [|c0 l0] eqn:Hline; [done|].
  destruct (re_match pattern (c0 :: l0)) as [m|] eqn:Hm; [|done].
  destruct (pattern_inv _ _ Hm)
    as (st & ws & tok & rest & Hl & Hst & Hws & Fws & Htok & Ftok & Hgs & Hge & Hn).
  rewrite Hgs, Hge. simpl. rewrite (strip_all_nonspace tok Ftok).
  destruct (SEED_STATUS_state st Hst) as [s' Hs']. rewrite Hs'. simpl.
  intros [= <- <- <-]. exists m, st, ws, rest.
  do 8 (split; [done|]).
  destruct Hn as [[Hnone Hrest]|(ws' & t & tail & -> & Hws' & Fws' & Ht & Ft & Htail & Hsome)].
  - left. rewrite Hnone. split; [done|]. split; [|done].
    destruct Hrest as [->| ->]; [done|]. exfalso.
    rewrite Hl in Hline.
    assert (H10 : isspace 10 = false); [|by vm_compute in H10].
    eapply (strip_snoc_nonspace line
              (ch "*" :: ch " " :: ch "[" :: st :: ch "]" :: ws ++ tok)).
    rewrite Hline. by rewrite !app_comm_cons, !app_assoc.
  - right. exists ws', t. rewrite Hsome.
    destruct Htail as [->| ->]; [done|]. exfalso.
    rewrite Hl in Hline.
    assert (H10 : isspace 10 = false); [|by vm_compute in H10].
    eapply (strip_snoc_nonspace line
              (ch "*" :: ch " " :: ch "[" :: st :: ch "]" :: ws ++ tok
               ++ ws' ++ ch "(" :: t ++ [ch ")"])).
    rewrite Hline. rewrite !app_comm_cons, !app_assoc.
    by rewrite (app_assoc _ [ch ")"] [10]).
Qed.

(** Conversely, every line of the two forms gives its row. *)
Lemma parse_line_plain st s ws e :
  st ∈ py "xo- " → SEED_STATUS !! [st] = Some s →
  ws ≠ [] → Forall (λ c, isspace c = true) ws →
  e ≠ [] → Forall (λ c, isspace c = false) e →
  parse_line (ch "*" :: ch " " :: ch "[" :: st :: ch "]" :: ws ++ e)
  = Some (e, s, []).
Proof.
  intros Hst Hs Hws Fws He Fe.
  destruct (pattern_plain st ws e Hst Hws Fws He Fe) as (m & Hm & Hgs & Hge & Hgn).
  rewrite app_nil_r in Hm.
  destruct (exists_last He) as (e0 & d & ->).
  assert (Hd : isspace d = false).
  { eapply Forall_forall in Fe; [exact Fe|]. apply elem_of_app. right. by left. }
  unfold parse_line.
  rewrite (strip_ends _ (ch "*") _
             (ch "*" :: ch " " :: ch "[" :: st :: ch "]" :: ws ++ e0) d eq_refl);
    [|by rewrite !app_comm_cons, !app_assoc|done|done].
  rewrite Hm, Hgs, Hge, Hgn. simpl. rewrite Hs. simpl.
  by rewrite (strip_all_nonspace _ Fe).
Qed.

Lemma parse_line_numbered st s ws e ws' t :
  st ∈ py "xo- " → SEED_STATUS !! [st] = Some s →
  ws ≠ [] → Forall (λ c, isspace c = true) ws →
  e ≠ [] → Forall (λ c, isspace c = false) e →
  ws' ≠ [] → Forall (λ c, isspace c = true) ws' →
  t ≠ [] → Forall (λ c, c ≠ ch ")") t →
  parse_line (ch "*" :: ch " " :: ch "[" :: st :: ch "]"
                :: ws ++ e ++ ws' ++ ch "(" :: t ++ [ch ")"])
  = Some (e, s, strip t).
Proof.
  intros Hst Hs Hws Fws He Fe Hws' Fws' Ht Ft.
  destruct (pattern_numbered st ws e ws' t Hst Hws Fws He Fe Hws' Fws' Ht Ft)
    as (m & Hm & Hgs & Hge & Hgn).
  unfold parse_line.
  rewrite (strip_ends _ (ch "*") _
             (ch "*" :: ch " " :: ch "[" :: st :: ch "]"
                :: ws ++ e ++ ws' ++ ch "(" :: t) (ch ")") eq_refl);
    [| |done|done].
  - rewrite Hm, Hgs, Hge, Hgn. simpl. rewrite Hs. simpl.
    by rewrite (strip_all_nonspace _ Fe).
  - cbn [app]. by rewrite <- !app_assoc.
Qed.

Lemma opening_inner u q acc :
  Forall (λ c, c ≠ ch "(" ∧ c ≠ ch ")") u →
  opening O (u ++ ch "(" :: q) acc = Some (rev u ++ acc).
Proof.
  intros Fu. revert acc. induction Fu as [|c u [Ho Hc] _ IH]; intros acc.
  - done.
  - simpl app. cbn [opening].
    apply N.eqb_neq in Ho, Hc. rewrite Hc, Ho, IH.
    by rewrite <- app_assoc.
Qed.

(** The group that ends the line is the last parenthesized one as long
    as its text holds no [(]. *)
Lemma last_parenthesized_suffix before t :
  Forall (λ c, c ≠ ch "(" ∧ c ≠ ch ")") t →
  last_parenthesized (before ++ ch "(" :: t ++ [ch ")"]) = Some t.
Proof.
  intros Ft. unfold last_parenthesized.
  replace (before ++ ch "(" :: t ++ [ch ")"])
    with ((before ++ ch "(" :: t) ++ [ch ")"])
    by (by rewrite <- app_assoc).
  rewrite rev_app_distr. simpl. rewrite rev_app_distr. simpl.
  rewrite <- app_assoc. simpl.
  rewrite opening_inner.
  - by rewrite rev_involutive, app_nil_r.
  - apply Forall_forall. intros c Hc%list_elem_of_In%in_rev%list_elem_of_In.
    by eapply Forall_forall in Ft.
Qed.
End parse_line.

(** ** The seed parser *)

Section parse_seed.
Local Open Scope N_scope.

(** On a text given by its lines, [parse_seed] is the loop body applied
    to each line in turn. *)
Lemma parse_seed_join_lines ls :
  Forall no_linebreak ls → parse_seed (join_lines ls) = omap parse_line ls.
Proof.
  unfold parse_seed. induction 1 as [|l ls Hl Hls IH]; [done|].
  destruct ls as [|l2 ls].
  - simpl join_lines. rewrite splitlines_line by done. by destruct l.
  - rewrite splitlines_join_cons by done.
    change (omap parse_line (l :: ?x)) with
      (match parse_line l with Some y => y :: omap parse_line x
                          | None => omap parse_line x end).
    rewrite IH. done.
Qed.

Lemma omap_parse_line_skipped ls :
  Forall (λ l, strip l = [] ∨ re_match pattern (strip l) = None) ls →
  omap parse_line ls = [].
Proof.
  induction 1 as [|l ls Hl%parse_line_None _ IH]; [done|].
  simpl. by rewrite Hl.
Qed.

Lemma marker_status_lookup st s :
  st ∈ py "xo- " → SEED_STATUS !! [st] = Some s ↔ (st, s) ∈ marker_status.
Proof.
  intros H. vm_compute in H.
  repeat (apply elem_of_cons in H as [->|H]); [..|by apply elem_of_nil in H].
  all: match goal with
       | |- SEED_STATUS !! ?k = _ ↔ _ =>
           let v := eval vm_compute in (SEED_STATUS !! k) in
           change (SEED_STATUS !! k) with v
       end.
  all: split;
    [ intros [= <-]; by apply (bool_decide_unpack _); vm_compute
    | unfold marker_status; intros Hin;
      repeat (apply elem_of_cons in Hin as [E|Hin]);
      try (by apply elem_of_nil in Hin);
      pose proof (f_equal fst E) as E1; pose proof (f_equal snd E) as E2;
      simpl in E1, E2; vm_compute in E1; try discriminate E1;
      by rewrite E2 ].
Qed.
End parse_seed.

(** C2: the document [* [x] a@x.com (7)], [* [o] b@x.com], [* [ ] c@x.com],
    [* [-] d@x.com] parses to the four rows (a@x.com, used, 7),
    (b@x.com, using, empty), (c@x.com, unused, empty) and
    (d@x.com, leftover, empty), in that order.  More generally the rows
    come in the order of the lines, the status of a row is the one that its
    marker stands for (x used, o using, - leftover, a space unused), and a
    line [* [m] email] with any of the four markers gives the row of that
    email with that status. *)
Theorem parse_seed_checklist :
  parse_seed (join_lines [py "* [x] a@x.com (7)"; py "* [o] b@x.com";
                          py "* [ ] c@x.com"; py "* [-] d@x.com"])
  = [(py "a@x.com", py "used", py "7"); (py "b@x.com", py "using", py "");
     (py "c@x.com", py "unused", py ""); (py "d@x.com", py "leftover", py "")]
  ∧ (∀ ls, Forall no_linebreak ls →
           parse_seed (join_lines ls) = omap parse_line ls)
  ∧ (∀ line e s n, parse_line line = Some (e, s, n) →
       ∃ st, strip line !! 3%nat = Some st ∧ (st, s) ∈ marker_status)
  ∧ (∀ st s e, (st, s) ∈ marker_status →
       e ≠ [] → Forall (λ c, isspace c = false) e →
       parse_line (py "* [" ++ [st] ++ py "] " ++ e) = Some (e, s, py "")).
Proof.
  split; [by vm_compute|]. split; [apply parse_seed_join_lines|]. split.
  - intros line e s n (m & st & ws & rest & _ & Hl & Hst & Hs & _)%parse_line_inv.
    exists st. rewrite Hl. split; [done|]. by apply marker_status_lookup.
  - intros st s e Hin He Fe.
    assert (Hst : st ∈ py "xo- ").
    { unfold marker_status in Hin.
      repeat (apply elem_of_cons in Hin as [[= -> _]|Hin]);
        [vm_compute; set_solver..|by apply elem_of_nil in Hin]. }
    apply (parse_line_plain st s [ch " "] e); try done.
    + by apply marker_status_lookup.
    + by repeat constructor.
Qed.

(** C6, as stated, fails: on the line [* [x] a (b(c)] the suffix is
    recognized and the parsed number is [b(c], while the last [)] of the
    line closes the [(] in front of [c], so that the text between the last
    matching parentheses is [c]. *)
Lemma parse_seed_number_inner_paren :
  parse_line (py "* [x] a (b(c)") = Some (py "a", py "used", py "b(c")
  ∧ (∃ m, re_match pattern (strip (py "* [x] a (b(c)")) = Some m
          ∧ m !! "number" = Some (py "b(c"))
  ∧ strip <$> last_parenthesized (strip (py "* [x] a (b(c)")) = Some (py "c")
  ∧ py "b(c" ≠ py "c".
Proof.
  split; [by vm_compute|]. split; [|by vm_compute].
  eexists. split; [by vm_compute|]. by vm_compute.
Qed.

(** C6, amended: on a recognized line that carries a parenthesized suffix,
    the suffix opens at the first [(] after the whitespace that follows the
    email token and closes at the [)] that ends the line; the text between
    the two is not empty and holds no [)], and the parsed number is that
    text, trimmed.  It is the text between the last matching parentheses of
    the line whenever it holds no [(]. *)
Theorem parse_seed_number line e s n m t :
  parse_line line = Some (e, s, n) →
  re_match pattern (strip line) = Some m →
  m !! "number" = Some t →
  ∃ st ws ws',
    strip line = py "* [" ++ [st] ++ py "]" ++ ws ++ e ++ ws' ++ py "(" ++ t ++ py ")"
    ∧ e ≠ [] ∧ Forall (λ c, isspace c = false) e
    ∧ ws' ≠ [] ∧ Forall (λ c, isspace c = true) ws'
    ∧ t ≠ [] ∧ Forall (λ c, c ≠ ch ")") t
    ∧ n = strip t
    ∧ (Forall (λ c, c ≠ ch "(") t → last_parenthesized (strip line) = Some t).
Proof.
  intros (m' & st & ws & rest & Hm' & Hl & _ & _ & _ & _ & He & Fe & Hn)%parse_line_inv
    Hm Ht.
  assert (m' = m) as -> by congruence.
  destruct Hn as [(Hnone & _)|(ws' & t' & Hsome & -> & Hws' & Fws' & Ht' & Ft' & ->)];
    [congruence|].
  assert (t' = t) as -> by congruence.
  exists st, ws, ws'. do 8 (split; [done|]).
  intros Fo. rewrite Hl.
  rewrite (app_assoc e), (app_assoc ws), !app_comm_cons.
  apply last_parenthesized_suffix.
  apply Forall_forall. intros c Hc. split.
  - by eapply Forall_forall in Fo.
  - by eapply Forall_forall in Ft'.
Qed.

Lemma parse_seed_number_witness :
  ∃ st ws ws',
    strip (py "  * [o]   a(1)@x.com   ( 1 2 ) ")
    = py "* [" ++ [st] ++ py "]" ++ ws ++ py "a(1)@x.com" ++ ws' ++ py "("
        ++ py " 1 2 " ++ py ")"
    ∧ py "a(1)@x.com" ≠ [] ∧ Forall (λ c, isspace c = false) (py "a(1)@x.com")
    ∧ ws' ≠ [] ∧ Forall (λ c, isspace c = true) ws'
    ∧ py " 1 2 " ≠ [] ∧ Forall (λ c, c ≠ ch ")") (py " 1 2 ")
    ∧ py "1 2" = strip (py " 1 2 ")
    ∧ (Forall (λ c, c ≠ ch "(") (py " 1 2 ") →
       last_parenthesized (strip (py "  * [o]   a(1)@x.com   ( 1 2 ) "))
       = Some (py " 1 2 ")).
Proof.
  apply (parse_seed_number (py "  * [o]   a(1)@x.com   ( 1 2 ) ")
           (py "a(1)@x.com") (py "using") (py "1 2")
           (<["number" := py " 1 2 "]>
              (<["email" := py "a(1)@x.com"]> (<["state" := py "o"]> ∅)))
           (py " 1 2 ")).
  - vm_compute. reflexivity.
  - vm_compute. reflexivity.
  - vm_compute. reflexivity.
Defined.

(** C7: lines that are empty after trimming, or that the pattern does not
    match, give no row and raise nothing: a document in which such lines
    stand between other lines parses to the same rows as the document
    without them. *)
Theorem parse_seed_skips before skipped after :
  Forall no_linebreak (before ++ skipped ++ after) →
  Forall (λ l, strip l = [] ∨ re_match pattern (strip l) = None) skipped →
  omap parse_line skipped = []
  ∧ parse_seed (join_lines (before ++ skipped ++ after))
    = parse_seed (join_lines (before ++ after)).
Proof.
  intros Hls Hsk. pose proof (omap_parse_line_skipped _ Hsk) as Hnone.
  split; [done|].
  rewrite (parse_seed_join_lines _ Hls).
  apply Forall_app in Hls as [Hb [_ Ha]%Forall_app].
  rewrite parse_seed_join_lines by (by apply Forall_app).
  by rewrite !omap_app, Hnone.
Qed.

Lemma parse_seed_skips_witness :
  omap parse_line [py ""; py "not a checklist item"; py "   "; py "* [y] e@x.com"] = []
  ∧ parse_seed (join_lines ([py "* [x] a@x.com (7)"]
                            ++ [py ""; py "not a checklist item"; py "   ";
                                py "* [y] e@x.com"]
                            ++ [py "* [o] b@x.com"]))
    = parse_seed (join_lines ([py "* [x] a@x.com (7)"] ++ [py "* [o] b@x.com"])).
Proof.
  apply (parse_seed_skips [py "* [x] a@x.com (7)"]
           [py ""; py "not a checklist item"; py "   "; py "* [y] e@x.com"]
           [py "* [o] b@x.com"]).
  - apply (bool_decide_unpack _). vm_compute. exact I.
  - apply (bool_decide_unpack _). vm_compute. exact I.
Defined.

(** ** Ordering policy *)

Global Instance order_le_trans : Transitive order_le.
Proof. intros a b c. unfold order_le. lia. Qed.

Global Instance order_le_total : Total order_le.
Proof. intros a b. unfold order_le. lia. Qed.

(** The clause, written out:
    [CASE status WHEN 'using' THEN 0 WHEN 'unused' THEN 1
     WHEN 'leftover' THEN 2 WHEN 'used' THEN 3 ELSE 4 END]. *)
Lemma STATUS_SORT_CLAUSE_unfold s :
  STATUS_SORT_CLAUSE s
  = if decide (s = py "using") then 0
    else if decide (s = py "unused") then 1
    else if decide (s = py "leftover") then 2
    else if decide (s = py "used") then 3
    else 4.
Proof. reflexivity. Qed.

Lemma STATUS_SORT_CLAUSE_other s : s ∉ STATUS_SORT → STATUS_SORT_CLAUSE s = 4.
Proof.
  intros Hs. rewrite STATUS_SORT_CLAUSE_unfold. unfold STATUS_SORT in Hs.
  repeat (case_decide; [by destruct Hs; subst s; set_solver|]).
  done.
Qed.

Lemma StronglySorted_distinct {A} (R R' : relation (Z * A)) l :
  (∀ a b, R a b → a.1 ≠ b.1 → R' a b) →
  StronglySorted R l → NoDup l.*1 → StronglySorted R' l.
Proof.
  intros HR. induction 1 as [|x l Hl IH Hx]; intros Hnd; [constructor|].
  apply NoDup_cons in Hnd as [Hnotin Hnd]. constructor; [by apply IH|].
  apply Forall_forall. intros y Hy. apply HR.
  - by eapply Forall_forall in Hx.
  - intros E. apply Hnotin. rewrite E. by apply list_elem_of_fmap_2.
Qed.

Lemma SELECT_ordered_perm db : SELECT_ordered db ≡ₚ map_to_list (emails db).
Proof. apply merge_sort_Permutation. Qed.

Lemma SELECT_ordered_sorted db :
  StronglySorted
    (λ a b, STATUS_SORT_CLAUSE (status a.2) < STATUS_SORT_CLAUSE (status b.2)
            ∨ (STATUS_SORT_CLAUSE (status a.2) = STATUS_SORT_CLAUSE (status b.2)
               ∧ (a.1 < b.1)%Z))
    (SELECT_ordered db).
Proof.
  apply (StronglySorted_distinct order_le).
  - intros a b H Hne. unfold order_le in H. lia.
  - apply StronglySorted_merge_sort; apply _.
  - rewrite SELECT_ordered_perm. apply NoDup_fst_map_to_list.
Qed.

(** ** Reloading the view *)

Lemma _load_rows_eq w :
  _load_rows w
  = {| _loading := false; conn := conn w; email_input := email_input w;
       status_input := status_input w; number_input := number_input w;
       table := view_row <$> SELECT_ordered (conn w); selectedItems := [] |}.
Proof.
  unfold _load_rows.
  assert (Hfold : ∀ l w0,
    foldl (λ w x, set_table (table w ++ [view_row x]) (selectedItems w) w) w0 l
    = set_table (table w0 ++ (view_row <$> l)) (selectedItems w0) w0).
  { induction l as [|x l IH]; intros w0; simpl.
    - rewrite app_nil_r. by destruct w0.
    - rewrite IH. unfold set_table. simpl. by rewrite <- app_assoc. }
  rewrite Hfold. done.
Qed.

Lemma conn_load_rows w : conn (_load_rows w) = conn w.
Proof. by rewrite _load_rows_eq. Qed.

(** C1: listing all rows gives every entry of the table once, sorted by the
    rank of its status, where [using] has rank 0, [unused] 1, [leftover] 2,
    [used] 3 and every status outside the enumeration the last rank 4, and
    then by [id] ascending; the view shows the rows in that order.  Entries
    added with the statuses used, unused, using, leftover, in that order,
    are listed as using, unused, leftover, used. *)
Theorem listAll_status_order :
  (STATUS_SORT_CLAUSE (py "using") = 0
   ∧ STATUS_SORT_CLAUSE (py "unused") = 1
   ∧ STATUS_SORT_CLAUSE (py "leftover") = 2
   ∧ STATUS_SORT_CLAUSE (py "used") = 3
   ∧ ∀ s, s ∉ STATUSES → STATUS_SORT_CLAUSE s = 4)
  ∧ (∀ db, SELECT_ordered db ≡ₚ map_to_list (emails db))
  ∧ (∀ db,
       StronglySorted
         (λ a b,
            STATUS_SORT_CLAUSE (status a.2) < STATUS_SORT_CLAUSE (status b.2)
            ∨ (STATUS_SORT_CLAUSE (status a.2) = STATUS_SORT_CLAUSE (status b.2)
               ∧ (a.1 < b.1)%Z))
         (SELECT_ordered db))
  ∧ (∀ w, table (_load_rows w) = view_row <$> SELECT_ordered (conn w))
  ∧ (let w := add "d@x.com" "leftover" ""
                (add "c@x.com" "using" ""
                   (add "b@x.com" "unused" ""
                      (add "a@x.com" "used" "" (_build_ui (_init_db None))))) in
     (λ x, (x.1, status x.2)) <$> SELECT_ordered (conn w)
     = [(3%Z, py "using"); (2%Z, py "unused"); (4%Z, py "leftover"); (1%Z, py "used")]
     ∧ status_box <$> table w
       = [py "using"; py "unused"; py "leftover"; py "used"]).
Proof.
  split.
  { do 4 (split; [reflexivity|]). intros s Hs. apply STATUS_SORT_CLAUSE_other.
    intros Hin. apply Hs. unfold STATUS_SORT in Hin.
    repeat (apply elem_of_cons in Hin as [->|Hin]);
      [by apply (bool_decide_unpack _); vm_compute..|by apply elem_of_nil in Hin]. }
  split; [apply SELECT_ordered_perm|]. split; [apply SELECT_ordered_sorted|].
  split; [intros w; by rewrite _load_rows_eq|].
  by vm_compute.
Qed.

(** ** Add *)

Lemma INSERT_exhausted db e s n :
  exhausted db → INSERT db e s n = inl OperationalError.
Proof. intros H. unfold INSERT. by rewrite decide_True. Qed.

Lemma INSERT_taken db e s n :
  ¬ exhausted db → email_taken e (emails db) →
  INSERT db e s n = inl IntegrityError.
Proof.
  intros Hroom H. unfold INSERT. by rewrite decide_False, decide_True.
Qed.

(** C3, as stated, fails: in a store whose sequence has handed out the
    largest [id], an insert of an email that a row already has does not
    fail on the uniqueness constraint but with "database or disk is full",
    which Add does not catch, so that no duplicate is reported. *)
Lemma add_email_duplicate_full :
  let r := {| email := py "a@x.com"; status := py "unused"; number := None |} in
  let w := {| _loading := false;
              conn := {| emails := {[ 1%Z := r ]}; sqlite_sequence := MAX_ROWID |};
              email_input := py "a@x.com"; status_input := py "unused";
              number_input := py "";
              table := [view_row (1%Z, r)]; selectedItems := [] |} in
  emails (conn w) !! 1%Z = Some r
  ∧ email r = strip (email_input w)
  ∧ INSERT (conn w) (strip (email_input w)) (status_input w) None
    = inl OperationalError
  ∧ _add_email w = (w, Raised OperationalError)
  ∧ Raised OperationalError ≠ Returned (Some Duplicate_Email).
Proof. cbv zeta. repeat split; by vm_compute. Qed.

(** C3, amended: adding an email that a row of the table already has (the
    same characters, case included) fails, and the window is left as it
    was: the table, with the status and number of the existing row, and the
    text of the form are unchanged.  As long as the store has an [id] left
    the insert fails on the uniqueness constraint and the handler warns of
    the duplicate; once the largest [id] has been handed out it fails with
    "database or disk is full", which the handler lets through. *)
Theorem add_email_duplicate w i r :
  emails (conn w) !! i = Some r →
  email r = strip (email_input w) →
  strip (email_input w) ≠ [] →
  (∀ s n, ∃ x, INSERT (conn w) (strip (email_input w)) s n = inl x)
  ∧ (_add_email w).1 = w
  ∧ emails (conn (_add_email w).1) !! i = Some r
  ∧ conn (_add_email w).1 = conn w
  ∧ email_input (_add_email w).1 = email_input w
  ∧ status_input (_add_email w).1 = status_input w
  ∧ number_input (_add_email w).1 = number_input w
  ∧ (¬ exhausted (conn w) →
     (∀ s n, INSERT (conn w) (strip (email_input w)) s n = inl IntegrityError)
     ∧ _add_email w = (w, Returned (Some Duplicate_Email)))
  ∧ (exhausted (conn w) →
     (∀ s n, INSERT (conn w) (strip (email_input w)) s n = inl OperationalError)
     ∧ _add_email w = (w, Raised OperationalError)).
Proof.
  intros Hi Hr He.
  assert (Htaken : email_taken (strip (email_input w)) (emails (conn w))).
  { apply map_Exists_lookup. eauto. }
  assert (Hfull : exhausted (conn w) → _add_email w = (w, Raised OperationalError)).
  { intros Hx. unfold _add_email.
    destruct (strip (email_input w)) as [|c e] eqn:E; [done|].
    by rewrite (INSERT_exhausted _ _ _ _ Hx). }
  assert (Hdup : ¬ exhausted (conn w) →
                 _add_email w = (w, Returned (Some Duplicate_Email))).
  { intros Hx. unfold _add_email.
    destruct (strip (email_input w)) as [|c e] eqn:E; [done|].
    by rewrite (INSERT_taken _ _ _ _ Hx Htaken). }
  assert (Hsame : (_add_email w).1 = w).
  { destruct (decide (exhausted (conn w))) as [Hx|Hx].
    - by rewrite (Hfull Hx).
    - by rewrite (Hdup Hx). }
  split.
  { intros s n. destruct (decide (exhausted (conn w))) as [Hx|Hx].
    - exists OperationalError. by apply INSERT_exhausted.
    - exists IntegrityError. by apply INSERT_taken. }
  split; [done|]. rewrite Hsame. do 5 (split; [done|]). split.
  - intros Hx. split; [|by apply Hdup]. intros s n. by apply INSERT_taken.
  - intros Hx. split; [|by apply Hfull]. intros s n. by apply INSERT_exhausted.
Qed.

Lemma add_email_duplicate_witness :
  let w := fill_form (py " a@x.com ") (py "used") (py "9")
             (add "a@x.com" "unused" "7" (_build_ui (_init_db None))) in
  let r := {| email := py "a@x.com"; status := py "unused"; number := Some (py "7") |} in
  (∀ s n, ∃ x, INSERT (conn w) (strip (email_input w)) s n = inl x)
  ∧ (_add_email w).1 = w
  ∧ emails (conn (_add_email w).1) !! 1%Z = Some r
  ∧ conn (_add_email w).1 = conn w
  ∧ email_input (_add_email w).1 = email_input w
  ∧ status_input (_add_email w).1 = status_input w
  ∧ number_input (_add_email w).1 = number_input w
  ∧ (¬ exhausted (conn w) →
     (∀ s n, INSERT (conn w) (strip (email_input w)) s n = inl IntegrityError)
     ∧ _add_email w = (w, Returned (Some Duplicate_Email)))
  ∧ (exhausted (conn w) →
     (∀ s n, INSERT (conn w) (strip (email_input w)) s n = inl OperationalError)
     ∧ _add_email w = (w, Raised OperationalError)).
Proof.
  apply (add_email_duplicate
           (fill_form (py " a@x.com ") (py "used") (py "9")
              (add "a@x.com" "unused" "7" (_build_ui (_init_db None))))
           1%Z
           {| email := py "a@x.com"; status := py "unused"; number := Some (py "7") |}).
  - vm_compute. reflexivity.
  - vm_compute. reflexivity.
  - vm_compute. discriminate.
Defined.

(** ** Number normalization *)

(** What Add and the number edit store for a number: nothing for a blank
    text, the trimmed text otherwise. *)
Lemma or_None_strip s :
  (strip s = [] ∧ or_None (strip s) = None)
  ∨ (strip s ≠ [] ∧ or_None (strip s) = Some (strip s)).
Proof. destruct (strip s) eqn:E; [by left|by right]. Qed.

Lemma or_None_nonempty s : or_None s ≠ Some [].
Proof. by destruct s. Qed.

(** Add stores no empty string: a row of the table after Add is a row of
    the table before it or has the normalized number. *)
Lemma add_email_number w i r :
  emails (conn (_add_email w).1) !! i = Some r →
  emails (conn w) !! i = Some r
  ∨ (number r = or_None (strip (number_input w)) ∧ number r ≠ Some []).
Proof.
  unfold _add_email. destruct (strip (email_input w)) as [|c e]; [by left|].
  unfold INSERT. case_decide; [by left|]. case_decide; [by left|].
  cbn [fst]. rewrite conn_load_rows. cbn [conn clear_inputs set_conn emails].
  intros [[_ <-]|[_ ?]]%lookup_insert_Some; [right|by left].
  split; [done|]. apply or_None_nonempty.
Qed.

(** The number edit stores no empty string either. *)
Lemma on_item_changed_number w c i r :
  emails (conn (_on_item_changed w c)) !! i = Some r →
  emails (conn w) !! i = Some r
  ∨ (number r = or_None (strip (text (item c))) ∧ number r ≠ Some []).
Proof.
  unfold _on_item_changed. destruct (_loading w); [by left|].
  case_decide; [by left|].
  destruct (match data (item c) with
            | Some i0 => Some i0
            | None => _row_id_for_row w (row c)
            end) as [row_id|]; [|by left].
  cbn [conn set_conn UPDATE_number emails].
  destruct (decide (i = row_id)) as [->|Hne].
  - rewrite lookup_alter_eq. destruct (emails (conn w) !! row_id); [|done].
    intros [= <-]. right. split; [done|]. apply or_None_nonempty.
  - rewrite lookup_alter_ne by done. by left.
Qed.

(** C4, at the seed import: the seed line [* [o] b@x.com] carries no
    number, and the row that the first start inserts for it has the empty
    string for its number rather than no number. *)
Theorem seed_number_empty_string :
  ∃ w, __init__ (py "* [o] b@x.com") None = inr w
       ∧ emails (conn w) !! 1%Z
         = Some {| email := py "b@x.com"; status := py "using"; number := Some (py "") |}.
Proof. eexists. split; by vm_compute. Qed.

(** ** Startup *)

(** C5: on a store that is not empty the startup sequence leaves the table
    as it is, whatever the seed document: the seed import is skipped, and a
    second start finds and leaves the same rows. *)
Theorem startup_nonempty_store SEED_TEXT db :
  COUNT db ≠ 0 →
  _ensure_seed_data SEED_TEXT db = inr db
  ∧ ∃ w, __init__ SEED_TEXT (Some db) = inr w
         ∧ conn w = db
         ∧ __init__ SEED_TEXT (Some (conn w)) = inr w.
Proof.
  intros Hc.
  assert (H : _ensure_seed_data SEED_TEXT db = inr db).
  { unfold _ensure_seed_data. by rewrite decide_True. }
  split; [done|]. unfold __init__. simpl. rewrite H.
  eexists. split; [done|]. rewrite conn_load_rows. simpl. split; [done|].
  by rewrite H.
Qed.

Lemma startup_nonempty_store_witness :
  let db := conn (add "a@x.com" "used" "7" (_build_ui (_init_db None))) in
  let SEED_TEXT := py "* [o] b@x.com" in
  _ensure_seed_data SEED_TEXT db = inr db
  ∧ ∃ w, __init__ SEED_TEXT (Some db) = inr w
         ∧ conn w = db
         ∧ __init__ SEED_TEXT (Some (conn w)) = inr w.
Proof.
  apply (startup_nonempty_store (py "* [o] b@x.com")
           (conn (add "a@x.com" "used" "7" (_build_ui (_init_db None))))).
  vm_compute. discriminate.
Defined.

(** ** Reloading mode *)

(** C8: while [_loading] is set, the status-change and the number-edit
    callbacks return at once: whatever the event, the window, and with it
    the store, is the same before and after. *)
Theorem reloading_suppresses_writes w :
  _loading w = true →
  (∀ row_id status, _update_status w row_id status = w
                    ∧ conn (_update_status w row_id status) = conn w)
  ∧ (∀ c, _on_item_changed w c = w ∧ conn (_on_item_changed w c) = conn w).
Proof.
  intros H. unfold _update_status, _on_item_changed. rewrite H. done.
Qed.

Lemma reloading_suppresses_writes_witness :
  let w := set_loading true (add "a@x.com" "used" "7" (_build_ui (_init_db None))) in
  (∀ row_id status, _update_status w row_id status = w
                    ∧ conn (_update_status w row_id status) = conn w)
  ∧ (∀ c, _on_item_changed w c = w ∧ conn (_on_item_changed w c) = conn w).
Proof.
  apply (reloading_suppresses_writes
           (set_loading true (add "a@x.com" "used" "7" (_build_ui (_init_db None))))).
  reflexivity.
Defined.

(** ** Status change *)

(** C10: the status-change handler writes nothing for a status outside
    [STATUSES]; a row of the table after the handler is a row of the table
    before it, or the addressed row with a status of the enumeration. *)
Theorem update_status_enumeration w row_id s :
  (s ∉ STATUSES → _update_status w row_id s = w)
  ∧ (∀ i r, emails (conn (_update_status w row_id s)) !! i = Some r →
            emails (conn w) !! i = Some r
            ∨ (i = row_id ∧ status r = s ∧ s ∈ STATUSES)).
Proof.
  unfold _update_status. split.
  - intros Hs. destruct (_loading w); [done|]. by rewrite decide_True.
  - intros i r. destruct (_loading w); [by left|].
    case_decide as Hs; [by left|]. simpl.
    destruct (decide (i = row_id)) as [->|Hne].
    + rewrite lookup_alter_eq.
      destruct (emails (conn w) !! row_id); [|done].
      simpl. intros [= <-]. by right.
    + rewrite lookup_alter_ne by done. by left.
Qed.

(** ** Delete selected *)

Section delete.
Implicit Types (w : App) (db : Db) (rows : list nat).

Lemma foldl_DELETE_lookup (f : nat → option Z) rows db i :
  emails (foldl (λ db row, match f row with
                           | None => db
                           | Some row_id => DELETE db row_id
                           end) db rows) !! i
  = if decide (i ∈ omap f rows) then None else emails db !! i.
Proof.
  revert db. induction rows as [|row rows IH]; intros db.
  - cbn [foldl omap list_omap]. rewrite decide_False; [done|].
    by intros ?%elem_of_nil.
  - cbn [foldl omap list_omap]. rewrite IH.
    destruct (f row) as [j|] eqn:Hj; [|done].
    cbn [DELETE emails].
    destruct (decide (i ∈ omap f rows)) as [Hin|Hnin].
    + rewrite decide_True; [done|]. by right.
    + destruct (decide (i = j)) as [->|Hne].
      * rewrite lookup_delete_eq, decide_True; [done|]. by left.
      * rewrite lookup_delete_ne, decide_False; [done| |done].
        by intros [?|?]%elem_of_cons.
Qed.

Lemma foldl_DELETE_sequence (f : nat → option Z) rows db :
  sqlite_sequence (foldl (λ db row, match f row with
                                    | None => db
                                    | Some row_id => DELETE db row_id
                                    end) db rows)
  = sqlite_sequence db.
Proof.
  revert db. induction rows as [|row rows IH]; intros db; simpl; [done|].
  rewrite IH. by destruct (f row).
Qed.

Lemma elem_of_sorted_reverse (l : list nat) x :
  x ∈ sorted_reverse (list_to_set l) ↔ x ∈ l.
Proof.
  unfold sorted_reverse.
  rewrite elem_of_reverse, merge_sort_Permutation, elem_of_elements.
  apply elem_of_list_to_set.
Qed.

Lemma resolved_sorted_reverse w i :
  i ∈ omap (_row_id_for_row w)
        (sorted_reverse (list_to_set (fst <$> selectedItems w)))
  ↔ i ∈ resolved_ids w.
Proof.
  unfold resolved_ids. rewrite !list_elem_of_omap.
  by setoid_rewrite elem_of_sorted_reverse.
Qed.
End delete.

(** C9: a confirmed delete of a selection that is not empty removes the
    entries whose identifiers the selected rows resolve to and no other:
    every other identifier keeps its entry, with the same email, status and
    number.  With nothing selected, or when the question is not answered
    with Yes, the window and the store are unchanged.  With five entries
    on display, deleting the rows that show the entries 2 and 5 leaves the
    entries 1, 3 and 4 as they were. *)
Theorem delete_selected_exactly :
  (∀ w confirm,
     (selectedItems w = [] ∨ confirm = No → _delete_selected w confirm = w)
     ∧ (selectedItems w ≠ [] → confirm = Yes →
        (∀ i, emails (conn (_delete_selected w confirm)) !! i
              = if decide (i ∈ resolved_ids w) then None
                else emails (conn w) !! i)
        ∧ sqlite_sequence (conn (_delete_selected w confirm))
          = sqlite_sequence (conn w)))
  ∧ (let w0 := add "e@x.com" "leftover" "5"
                 (add "d@x.com" "unused" ""
                    (add "c@x.com" "using" "3"
                       (add "b@x.com" "unused" "2"
                          (add "a@x.com" "used" ""
                             (_build_ui (_init_db None)))))) in
     let w := select [(1, 0); (3, 0); (3, 2)] w0 in
     fst <$> SELECT_ordered (conn w) = [3; 2; 4; 5; 1]%Z
     ∧ resolved_ids w = [2; 5; 5]%Z
     ∧ SELECT_ordered (conn (_delete_selected w Yes))
       = [(3%Z, {| email := py "c@x.com"; status := py "using"; number := Some (py "3") |});
          (4%Z, {| email := py "d@x.com"; status := py "unused"; number := None |});
          (1%Z, {| email := py "a@x.com"; status := py "used"; number := None |})]
     ∧ (∀ i, i ∈ [1; 3; 4]%Z →
             emails (conn (_delete_selected w Yes)) !! i = emails (conn w0) !! i)
     ∧ _delete_selected w No = w
     ∧ _delete_selected w0 Yes = w0).
Proof.
  split.
  - intros w confirm. unfold _delete_selected. split.
    + intros [Hsel| ->].
      * rewrite Hsel. simpl. by rewrite decide_True.
      * by case_decide.
    + intros Hsel ->. rewrite decide_False.
      * rewrite conn_load_rows. simpl. split.
        -- intros i. rewrite foldl_DELETE_lookup.
           destruct (decide (i ∈ resolved_ids w)) as [Hin|Hnin].
           ++ rewrite decide_True; [done|]. by apply resolved_sorted_reverse.
           ++ rewrite decide_False; [done|]. by rewrite resolved_sorted_reverse.
        -- apply foldl_DELETE_sequence.
      * destruct (selectedItems w) as [|[row col] sel]; [done|].
        simpl. intros E. assert (row ∈ (∅ : gset nat)) as Hin; [|set_solver].
        rewrite <- E. set_solver.
  - cbv zeta. split; [by vm_compute|]. split; [by vm_compute|].
    split; [by vm_compute|]. split; [|split; by vm_compute].
    intros i Hi.
    apply elem_of_cons in Hi as [->|Hi]; [vm_compute; reflexivity|].
    apply elem_of_cons in Hi as [->|Hi]; [vm_compute; reflexivity|].
    apply elem_of_cons in Hi as [->|Hi]; [vm_compute; reflexivity|].
    apply elem_of_nil in Hi. destruct Hi.
Qed.

(** * Further properties *)

(** ** The table *)

Lemma max_rowid_ge (t : gmap Z Row) i : is_Some (t !! i) → (i ≤ max_rowid t)%Z.
Proof.
  revert i. unfold max_rowid.
  apply (map_fold_weak_ind (λ r (m : gmap Z Row), ∀ i, is_Some (m !! i) → (i ≤ r)%Z)).
  - intros i [x Hx]. by rewrite lookup_empty in Hx.
  - intros j x m r _ IH i [->|[_ Hi]]%lookup_insert_is_Some; [lia|].
    specialize (IH i Hi). lia.
Qed.

Lemma next_id_fresh db : emails db !! next_id db = None.
Proof.
  apply eq_None_not_Some. intros H%max_rowid_ge. unfold next_id in H. lia.
Qed.

Lemma next_id_above db i :
  is_Some (emails db !! i) → (i < next_id db)%Z.
Proof. intros H%max_rowid_ge. unfold next_id. lia. Qed.

Lemma INSERT_free db e s n :
  ¬ exhausted db → ¬ email_taken e (emails db) →
  INSERT db e s n
  = inr {| emails := <[next_id db := {| email := e; status := s; number := n |}]>
                       (emails db);
           sqlite_sequence := next_id db |}.
Proof. intros Hx H. unfold INSERT. by rewrite !decide_False. Qed.

Lemma INSERT_room db e s n db' : INSERT db e s n = inr db' → ¬ exhausted db.
Proof. unfold INSERT. by case_decide. Qed.

Lemma exhausted_next_id db : exhausted db ↔ (MAX_ROWID < next_id db)%Z.
Proof. unfold exhausted, next_id. lia. Qed.

Lemma INSERT_inr db e s n db' :
  INSERT db e s n = inr db' →
  ¬ email_taken e (emails db)
  ∧ db' = {| emails := <[next_id db := {| email := e; status := s; number := n |}]>
                         (emails db);
             sqlite_sequence := next_id db |}.
Proof.
  unfold INSERT. case_decide; [done|]. case_decide; [done|]. by intros [= <-].
Qed.

Lemma email_taken_lookup e (t : gmap Z Row) :
  email_taken e t ↔ ∃ i r, t !! i = Some r ∧ email r = e.
Proof. apply map_Exists_lookup. Qed.

Lemma unique_email_INSERT db e s n db' :
  unique_email db → INSERT db e s n = inr db' → unique_email db'.
Proof.
  intros Hu [Hfree ->]%INSERT_inr i j r r'. cbn [emails].
  intros [[<- <-]|[Hi Hr]]%lookup_insert_Some [[<- <-]|[Hj Hr']]%lookup_insert_Some E;
    cbn [email] in E.
  - done.
  - destruct Hfree. apply email_taken_lookup. eauto.
  - destruct Hfree. apply email_taken_lookup. eauto.
  - by eapply Hu.
Qed.

Lemma ids_issued_INSERT db e s n db' :
  ids_issued db → INSERT db e s n = inr db' → ids_issued db'.
Proof.
  intros Hs [_ ->]%INSERT_inr i. cbn [emails sqlite_sequence].
  intros [<-|[_ Hi]]%lookup_insert_is_Some; [done|].
  apply next_id_above in Hi. lia.
Qed.

(** ** Add, case by case *)

(** X1: how Add ends, case by case.  It warns of a missing email exactly
    when the email field is blank after trimming.  Otherwise it raises
    "database or disk is full" exactly when the store has no [id] left,
    warns of a duplicate exactly when there is an [id] left and a row of
    the table has the trimmed email, and returns without a warning exactly
    when there is an [id] left and the trimmed email is new.  Whenever it
    warns or raises, the window is left as it was. *)
Theorem add_email_outcome w :
  ((_add_email w).2 = Returned (Some Missing_Email) ↔ strip (email_input w) = [])
  ∧ ((_add_email w).2 = Raised OperationalError
     ↔ strip (email_input w) ≠ [] ∧ exhausted (conn w))
  ∧ ((_add_email w).2 = Returned (Some Duplicate_Email)
     ↔ strip (email_input w) ≠ [] ∧ ¬ exhausted (conn w)
       ∧ email_taken (strip (email_input w)) (emails (conn w)))
  ∧ ((_add_email w).2 = Returned None
     ↔ strip (email_input w) ≠ [] ∧ ¬ exhausted (conn w)
       ∧ ¬ email_taken (strip (email_input w)) (emails (conn w)))
  ∧ (_add_email w).2 ≠ Raised IntegrityError
  ∧ ((_add_email w).2 ≠ Returned None → (_add_email w).1 = w).
Proof.
  unfold _add_email. destruct (strip (email_input w)) as [|c e] eqn:He.
  { cbn [fst snd]. repeat split; try done; by intros [? _]. }
  unfold INSERT. case_decide as Hx; [|case_decide as Ht]; cbn [fst snd].
  - repeat split; try done; by intros (_ & ? & _).
  - repeat split; try done; try (by intros [_ ?]). by intros (_ & _ & ?).
  - repeat split; try done; try (by intros [_ ?]). by intros (_ & _ & ?).
Qed.

(** X2: Add of an email that is not blank and not in the table, in a store
    that has an [id] left, inserts one row under an [id] larger than every
    [id] of the table and than the sequence, and at most the largest
    possible [id], holding the trimmed email, the chosen status and the
    number (absent when blank, trimmed otherwise); the other rows stay, the
    count grows by one, the email and number fields are cleared, the chosen
    status stays, and the view is reloaded. *)
Theorem add_email_inserts w :
  strip (email_input w) ≠ [] →
  ¬ exhausted (conn w) →
  ¬ email_taken (strip (email_input w)) (emails (conn w)) →
  ∃ w', _add_email w = (w', Returned None)
    ∧ (∀ j, is_Some (emails (conn w) !! j) → (j < next_id (conn w))%Z)
    ∧ (sqlite_sequence (conn w) < next_id (conn w) ≤ MAX_ROWID)%Z
    ∧ emails (conn w') !! next_id (conn w)
      = Some {| email := strip (email_input w); status := status_input w;
                number := or_None (strip (number_input w)) |}
    ∧ (∀ j, j ≠ next_id (conn w) → emails (conn w') !! j = emails (conn w) !! j)
    ∧ sqlite_sequence (conn w') = next_id (conn w)
    ∧ COUNT (conn w') = S (COUNT (conn w))
    ∧ email_input w' = [] ∧ number_input w' = []
    ∧ status_input w' = status_input w
    ∧ table w' = view_row <$> SELECT_ordered (conn w')
    ∧ _loading w' = false ∧ selectedItems w' = [].
Proof.
  intros He Hroom Hfree.
  exists (_load_rows
            (clear_inputs
               (set_conn
                  {| emails :=
                       <[next_id (conn w) :=
                           {| email := strip (email_input w);
                              status := status_input w;
                              number := or_None (strip (number_input w)) |}]>
                         (emails (conn w));
                     sqlite_sequence := next_id (conn w) |} w))).
  split.
  { unfold _add_email. rewrite (INSERT_free _ _ _ _ Hroom Hfree).
    by destruct (strip (email_input w)). }
  rewrite _load_rows_eq. cbn.
  split; [apply next_id_above|].
  split; [unfold exhausted in Hroom; unfold next_id; lia|].
  split; [by rewrite lookup_insert_eq|].
  split; [by intros j Hj; rewrite lookup_insert_ne|].
  split; [done|]. split; [|done].
  unfold COUNT. cbn. apply map_size_insert_None, next_id_fresh.
Qed.

Lemma add_email_inserts_witness :
  let w := fill_form (py " b@x.com ") (py "using") (py "  ")
             (add "a@x.com" "unused" "7" (_build_ui (_init_db None))) in
  ∃ w', _add_email w = (w', Returned None)
    ∧ (∀ j, is_Some (emails (conn w) !! j) → (j < next_id (conn w))%Z)
    ∧ (sqlite_sequence (conn w) < next_id (conn w) ≤ MAX_ROWID)%Z
    ∧ emails (conn w') !! next_id (conn w)
      = Some {| email := strip (email_input w); status := status_input w;
                number := or_None (strip (number_input w)) |}
    ∧ (∀ j, j ≠ next_id (conn w) → emails (conn w') !! j = emails (conn w) !! j)
    ∧ sqlite_sequence (conn w') = next_id (conn w)
    ∧ COUNT (conn w') = S (COUNT (conn w))
    ∧ email_input w' = [] ∧ number_input w' = []
    ∧ status_input w' = status_input w
    ∧ table w' = view_row <$> SELECT_ordered (conn w')
    ∧ _loading w' = false ∧ selectedItems w' = [].
Proof.
  apply (add_email_inserts
           (fill_form (py " b@x.com ") (py "using") (py "  ")
              (add "a@x.com" "unused" "7" (_build_ui (_init_db None))))).
  - vm_compute. discriminate.
  - apply (bool_decide_unpack _). vm_compute. exact I.
  - apply (bool_decide_unpack _). vm_compute. exact I.
Defined.

(** ** In-place edits *)

Lemma COUNT_alter f i db db' :
  emails db' = alter f i (emails db) → COUNT db' = COUNT db.
Proof.
  intros H. unfold COUNT. rewrite H.
  rewrite <- !(size_dom (D := gset Z)). by rewrite dom_alter_L.
Qed.

Lemma set_conn_id w : set_conn (conn w) w = w.
Proof. by destruct w. Qed.

Lemma UPDATE_status_absent db s i :
  emails db !! i = None → UPDATE_status db s i = db.
Proof.
  intros H. unfold UPDATE_status. rewrite alter_id' by done. by destruct db.
Qed.

Lemma UPDATE_number_absent db n i :
  emails db !! i = None → UPDATE_number db n i = db.
Proof.
  intros H. unfold UPDATE_number. rewrite alter_id' by done. by destruct db.
Qed.

(** X3: outside reloading mode, a status change to a member of [STATUSES]
    sets the status of the row with that [id] and keeps its email and
    number; every other row, the sequence and the count are as before; the
    view, the selection and the form are not touched (no reload); for an
    [id] that is not in the table nothing changes at all. *)
Theorem update_status_writes w row_id s :
  _loading w = false → s ∈ STATUSES →
  emails (conn (_update_status w row_id s)) !! row_id
  = (λ r, {| email := email r; status := s; number := number r |})
      <$> emails (conn w) !! row_id
  ∧ (∀ j, j ≠ row_id →
          emails (conn (_update_status w row_id s)) !! j = emails (conn w) !! j)
  ∧ sqlite_sequence (conn (_update_status w row_id s)) = sqlite_sequence (conn w)
  ∧ COUNT (conn (_update_status w row_id s)) = COUNT (conn w)
  ∧ _update_status w row_id s = set_conn (conn (_update_status w row_id s)) w
  ∧ (emails (conn w) !! row_id = None → _update_status w row_id s = w).
Proof.
  intros Hl Hs. unfold _update_status. rewrite Hl.
  rewrite decide_False by (by intros H; apply H).
  cbn [conn set_conn UPDATE_status emails sqlite_sequence].
  split; [apply lookup_alter_eq|].
  split; [by intros j Hj; apply lookup_alter_ne|].
  split; [done|]. split; [by eapply COUNT_alter|]. split; [done|].
  intros Hnone. fold (UPDATE_status (conn w) s row_id).
  rewrite UPDATE_status_absent by done. apply set_conn_id.
Qed.

Lemma update_status_writes_witness :
  let w := add "b@x.com" "unused" "2"
             (add "a@x.com" "unused" "7" (_build_ui (_init_db None))) in
  let s := py "used" in
  let row_id := 1%Z in
  emails (conn (_update_status w row_id s)) !! row_id
  = (λ r, {| email := email r; status := s; number := number r |})
      <$> emails (conn w) !! row_id
  ∧ (∀ j, j ≠ row_id →
          emails (conn (_update_status w row_id s)) !! j = emails (conn w) !! j)
  ∧ sqlite_sequence (conn (_update_status w row_id s)) = sqlite_sequence (conn w)
  ∧ COUNT (conn (_update_status w row_id s)) = COUNT (conn w)
  ∧ _update_status w row_id s = set_conn (conn (_update_status w row_id s)) w
  ∧ (emails (conn w) !! row_id = None → _update_status w row_id s = w).
Proof.
  apply (update_status_writes
           (add "b@x.com" "unused" "2"
              (add "a@x.com" "unused" "7" (_build_ui (_init_db None))))
           1%Z (py "used")).
  - vm_compute. reflexivity.
  - apply (bool_decide_unpack _). vm_compute. exact I.
Defined.

(** The [id] that a number edit addresses: the data of the changed item,
    else the data of the email item of its row. *)
Lemma on_item_changed_cases w c :
  _loading w = false →
  (column c ≠ 2 → _on_item_changed w c = w)
  ∧ (column c = 2 → data (item c) = None → _row_id_for_row w (row c) = None →
     _on_item_changed w c = w)
  ∧ (column c = 2 → ∀ row_id,
       data (item c) = Some row_id
       ∨ (data (item c) = None ∧ _row_id_for_row w (row c) = Some row_id) →
       _on_item_changed w c
       = set_conn (UPDATE_number (conn w) (or_None (strip (text (item c)))) row_id) w).
Proof.
  intros Hl. unfold _on_item_changed. rewrite Hl. split; [|split].
  - intros Hc. by rewrite decide_True.
  - intros Hc Hd Hr. rewrite decide_False by (by intros H; apply H).
    by rewrite Hd, Hr.
  - intros Hc row_id H. rewrite decide_False by (by intros H'; apply H').
    by destruct H as [->|[-> ->]].
Qed.

(** X4: outside reloading mode, a change of an item of another column than
    the number column writes nothing, and so does a change whose item and
    row carry no [id]; a change in the number column sets the number of the
    row with the [id] of the item (or, without one, of the email item of its
    row) to the trimmed text, absent when blank, and keeps its email and
    status; the other rows, the sequence, the count, the view and the form
    are as before. *)
Theorem on_item_changed_writes w c row_id :
  _loading w = false → column c = 2 →
  data (item c) = Some row_id
  ∨ (data (item c) = None ∧ _row_id_for_row w (row c) = Some row_id) →
  emails (conn (_on_item_changed w c)) !! row_id
  = (λ r, {| email := email r; status := status r;
             number := or_None (strip (text (item c))) |})
      <$> emails (conn w) !! row_id
  ∧ (∀ j, j ≠ row_id →
          emails (conn (_on_item_changed w c)) !! j = emails (conn w) !! j)
  ∧ sqlite_sequence (conn (_on_item_changed w c)) = sqlite_sequence (conn w)
  ∧ COUNT (conn (_on_item_changed w c)) = COUNT (conn w)
  ∧ _on_item_changed w c = set_conn (conn (_on_item_changed w c)) w
  ∧ (∀ c', column c' ≠ 2 → _on_item_changed w c' = w)
  ∧ (∀ c', data (item c') = None → _row_id_for_row w (row c') = None →
           _on_item_changed w c' = w).
Proof.
  intros Hl Hc Hid.
  destruct (on_item_changed_cases w c Hl) as (_ & _ & H).
  rewrite (H Hc row_id Hid).
  cbn [conn set_conn UPDATE_number emails sqlite_sequence].
  split; [apply lookup_alter_eq|].
  split; [by intros j Hj; apply lookup_alter_ne|].
  split; [done|]. split; [by eapply COUNT_alter|]. split; [done|].
  split.
  - intros c' Hc'. destruct (on_item_changed_cases w c' Hl) as (H1 & _). auto.
  - intros c' Hd Hr. destruct (on_item_changed_cases w c' Hl) as (H1 & H2 & _).
    destruct (decide (column c' = 2)); auto.
Qed.

Lemma on_item_changed_writes_witness :
  let w := add "b@x.com" "unused" "2"
             (add "a@x.com" "unused" "7" (_build_ui (_init_db None))) in
  let c := {| row := 1; column := 2; item := {| text := py "  "; data := None |} |} in
  let row_id := 2%Z in
  emails (conn (_on_item_changed w c)) !! row_id
  = (λ r, {| email := email r; status := status r;
             number := or_None (strip (text (item c))) |})
      <$> emails (conn w) !! row_id
  ∧ (∀ j, j ≠ row_id →
          emails (conn (_on_item_changed w c)) !! j = emails (conn w) !! j)
  ∧ sqlite_sequence (conn (_on_item_changed w c)) = sqlite_sequence (conn w)
  ∧ COUNT (conn (_on_item_changed w c)) = COUNT (conn w)
  ∧ _on_item_changed w c = set_conn (conn (_on_item_changed w c)) w
  ∧ (∀ c', column c' ≠ 2 → _on_item_changed w c' = w)
  ∧ (∀ c', data (item c') = None → _row_id_for_row w (row c') = None →
           _on_item_changed w c' = w).
Proof.
  apply (on_item_changed_writes
           (add "b@x.com" "unused" "2"
              (add "a@x.com" "unused" "7" (_build_ui (_init_db None))))
           {| row := 1; column := 2; item := {| text := py "  "; data := None |} |}
           2%Z).
  - vm_compute. reflexivity.
  - reflexivity.
  - right. split; vm_compute; reflexivity.
Defined.

(** ** The reloaded view *)

Lemma SELECT_ordered_elem db i r :
  (i, r) ∈ SELECT_ordered db ↔ emails db !! i = Some r.
Proof. rewrite SELECT_ordered_perm. apply elem_of_map_to_list. Qed.

Lemma SELECT_ordered_NoDup_ids db : NoDup (SELECT_ordered db).*1.
Proof. rewrite SELECT_ordered_perm. apply NoDup_fst_map_to_list. Qed.

Lemma SELECT_ordered_length db : length (SELECT_ordered db) = COUNT db.
Proof.
  rewrite SELECT_ordered_perm. unfold COUNT. apply length_map_to_list.
Qed.

Lemma row_id_load_rows w k :
  _row_id_for_row (_load_rows w) k = fst <$> SELECT_ordered (conn w) !! k.
Proof.
  unfold _row_id_for_row. rewrite _load_rows_eq. cbn [table].
  rewrite list_lookup_fmap.
  by destruct (SELECT_ordered (conn w) !! k) as [[i r]|].
Qed.

Lemma view_row_status x : status_box (view_row x) ∈ STATUSES.
Proof.
  destruct x as [i r]. cbn. case_decide; [done|].
  by apply (bool_decide_unpack _); vm_compute.
Qed.

(** X5: a reload keeps the connection and the form, clears the selection
    and ends outside reloading mode.  The view then has one row per entry:
    row [k] carries the [id] of the [k]-th entry of the ordered listing and
    shows that entry, a row number past the end resolves to no [id], every
    entry is on display in exactly one row, and every status box shows a
    member of [STATUSES].  Reloading twice is reloading once. *)
Theorem load_rows_view w :
  conn (_load_rows w) = conn w
  ∧ email_input (_load_rows w) = email_input w
  ∧ status_input (_load_rows w) = status_input w
  ∧ number_input (_load_rows w) = number_input w
  ∧ selectedItems (_load_rows w) = []
  ∧ _loading (_load_rows w) = false
  ∧ length (table (_load_rows w)) = COUNT (conn w)
  ∧ (∀ k, _row_id_for_row (_load_rows w) k = fst <$> SELECT_ordered (conn w) !! k)
  ∧ (∀ k, COUNT (conn w) ≤ k → _row_id_for_row (_load_rows w) k = None)
  ∧ (∀ k i, _row_id_for_row (_load_rows w) k = Some i →
            ∃ r, emails (conn w) !! i = Some r
                 ∧ table (_load_rows w) !! k = Some (view_row (i, r)))
  ∧ (∀ i, is_Some (emails (conn w) !! i) →
          ∃ k, _row_id_for_row (_load_rows w) k = Some i)
  ∧ (∀ k k' i, _row_id_for_row (_load_rows w) k = Some i →
               _row_id_for_row (_load_rows w) k' = Some i → k = k')
  ∧ Forall (λ r, status_box r ∈ STATUSES) (table (_load_rows w))
  ∧ _load_rows (_load_rows w) = _load_rows w.
Proof.
  do 6 (split; [by rewrite _load_rows_eq|]).
  split.
  { rewrite _load_rows_eq. cbn [table].
    by rewrite length_fmap, SELECT_ordered_length. }
  split; [apply row_id_load_rows|].
  split.
  { intros k Hk. rewrite row_id_load_rows.
    rewrite lookup_ge_None_2; [done|]. by rewrite SELECT_ordered_length. }
  split.
  { intros k i. rewrite row_id_load_rows.
    destruct (SELECT_ordered (conn w) !! k) as [[j r]|] eqn:E; [|done].
    intros [= ->]. exists r. split.
    - by apply SELECT_ordered_elem, list_elem_of_lookup_2 with k.
    - rewrite _load_rows_eq. cbn [table]. by rewrite list_lookup_fmap, E. }
  split.
  { intros i [r Hr]. apply SELECT_ordered_elem, list_elem_of_lookup_1 in Hr as [k Hk].
    exists k. by rewrite row_id_load_rows, Hk. }
  split.
  { intros k k' i. rewrite !row_id_load_rows, <- !list_lookup_fmap.
    apply NoDup_lookup, SELECT_ordered_NoDup_ids. }
  split.
  { rewrite _load_rows_eq. cbn [table]. apply Forall_fmap, Forall_forall.
    intros x _. apply view_row_status. }
  by rewrite !_load_rows_eq.
Qed.

(** ** Trimming *)

Section strip.
Local Open Scope N_scope.

Lemma lstrip_split s :
  ∃ p, s = p ++ lstrip s ∧ Forall (λ c, isspace c = true) p.
Proof.
  induction s as [|c s (p & Hp & Fp)]; [by exists []|].
  simpl. destruct (isspace c) eqn:Hc.
  - exists (c :: p). split; [simpl; by rewrite <- Hp|by constructor].
  - by exists [].
Qed.

Lemma lstrip_app_space p s :
  Forall (λ c, isspace c = true) p → lstrip (p ++ s) = lstrip s.
Proof. induction 1 as [|c p Hc _ IH]; [done|]. simpl. by rewrite Hc. Qed.

Lemma lstrip_all_space p : Forall (λ c, isspace c = true) p → lstrip p = [].
Proof. intros H. rewrite <- (app_nil_r p). by rewrite lstrip_app_space. Qed.

Lemma lstrip_app_nonempty s q : lstrip s ≠ [] → lstrip (s ++ q) = lstrip s ++ q.
Proof.
  induction s as [|c s IH]; [done|]. simpl.
  destruct (isspace c); [exact IH|done].
Qed.

Lemma rev_space q :
  Forall (λ c, isspace c = true) q → Forall (λ c, isspace c = true) (rev q).
Proof.
  intros H. apply Forall_forall.
  intros c Hc%list_elem_of_In%in_rev%list_elem_of_In.
  by eapply Forall_forall in H.
Qed.

Lemma rstrip_app_space s q :
  Forall (λ c, isspace c = true) q → rstrip (s ++ q) = rstrip s.
Proof.
  intros H. unfold rstrip. rewrite rev_app_distr.
  by rewrite lstrip_app_space by (by apply rev_space).
Qed.

Lemma rstrip_split s :
  ∃ q, s = rstrip s ++ q ∧ Forall (λ c, isspace c = true) q.
Proof.
  destruct (lstrip_split (rev s)) as (p & Hp & Fp).
  exists (rev p). split; [|by apply rev_space].
  unfold rstrip. rewrite <- rev_app_distr, <- Hp. by rewrite rev_involutive.
Qed.

(** [strip] removes a run of whitespace at each end and nothing else. *)
Lemma strip_split s :
  ∃ p q, s = p ++ strip s ++ q
         ∧ Forall (λ c, isspace c = true) p ∧ Forall (λ c, isspace c = true) q.
Proof.
  destruct (lstrip_split s) as (p & Hp & Fp).
  destruct (rstrip_split (lstrip s)) as (q & Hq & Fq).
  exists p, q. unfold strip. by rewrite <- Hq.
Qed.

Lemma strip_cons_nonspace s c w : strip s = c :: w → isspace c = false.
Proof.
  unfold strip. intros H.
  destruct (rstrip_split (lstrip s)) as (q & Hq & _). rewrite H in Hq.
  by apply lstrip_cons_nonspace in Hq.
Qed.

Lemma strip_pad p s q :
  Forall (λ c, isspace c = true) p → Forall (λ c, isspace c = true) q →
  strip (p ++ s ++ q) = strip s.
Proof.
  intros Fp Fq. unfold strip. rewrite lstrip_app_space by done.
  destruct (lstrip s) as [|c w] eqn:E.
  - destruct (lstrip_split s) as (p' & Hp' & Fp'). rewrite E, app_nil_r in Hp'.
    subst p'. rewrite lstrip_all_space; [done|]. by apply Forall_app.
  - rewrite lstrip_app_nonempty by (by rewrite E). rewrite E.
    by apply rstrip_app_space.
Qed.

Lemma strip_idemp s : strip (strip s) = strip s.
Proof.
  destruct (strip_split s) as (p & q & Hs & Fp & Fq).
  rewrite Hs at 2. by rewrite strip_pad.
Qed.
End strip.

Lemma normalized_or_None_strip t : normalized (or_None (strip t)).
Proof.
  destruct (strip t) as [|c l] eqn:E; [done|]. simpl. split; [done|].
  rewrite <- E. apply strip_idemp.
Qed.

(** ** Events and the table *)

Lemma foldl_DELETE_omap (f : nat → option Z) rows db :
  foldl (λ db row, match f row with
                   | None => db
                   | Some row_id => DELETE db row_id
                   end) db rows
  = foldl DELETE db (omap f rows).
Proof.
  revert db. induction rows as [|row rows IH]; intros db; [done|].
  cbn [foldl omap list_omap]. rewrite IH. by destruct (f row).
Qed.

Lemma foldl_DELETE_sub ids db i r :
  emails (foldl DELETE db ids) !! i = Some r → emails db !! i = Some r.
Proof.
  revert db. induction ids as [|j ids IH]; intros db; [done|].
  cbn [foldl]. intros H%IH. cbn [DELETE emails] in H.
  by apply lookup_delete_Some in H as [_ ?].
Qed.

Lemma foldl_DELETE_seq ids db :
  sqlite_sequence (foldl DELETE db ids) = sqlite_sequence db.
Proof.
  revert db. induction ids as [|j ids IH]; intros db; [done|].
  cbn [foldl]. by rewrite IH.
Qed.

Lemma alter_email_lookup (f : Row → Row) i (t : gmap Z Row) j r :
  (∀ x, email (f x) = email x) →
  alter f i t !! j = Some r → ∃ x, t !! j = Some x ∧ email x = email r.
Proof.
  intros Hf [[-> (x & Hx & ->)]|[_ Hj]]%lookup_alter_Some; eauto.
Qed.

Lemma handle_conn_step w ev :
  db_step (status_input w) (conn w) (conn (handle w ev)).
Proof.
  destruct ev as [e s n|sel| |confirm|row_id s|c]; cbn [handle].
  - apply step_none.
  - apply step_none.
  - unfold _add_email. destruct (strip (email_input w)) as [|a e] eqn:He;
      [apply step_none|].
    destruct (INSERT (conn w) (a :: e) (status_input w)
                (or_None (strip (number_input w)))) as [[]|db'] eqn:Hi;
      [apply step_none..|].
    cbn [fst]. rewrite conn_load_rows. cbn [conn clear_inputs set_conn].
    apply (step_insert _ _ (a :: e) (or_None (strip (number_input w))));
      [done| |apply normalized_or_None_strip|exact Hi].
    rewrite <- He. apply strip_idemp.
  - unfold _delete_selected. case_decide; [apply step_none|].
    destruct confirm; [|apply step_none].
    rewrite conn_load_rows. cbn [conn set_conn].
    rewrite foldl_DELETE_omap. apply step_delete.
  - unfold _update_status. destruct (_loading w); [apply step_none|].
    case_decide as Hs; [apply step_none|].
    cbn [conn set_conn]. by apply step_status.
  - unfold _on_item_changed. destruct (_loading w); [apply step_none|].
    case_decide; [apply step_none|].
    destruct (match data (item c) with
              | Some i => Some i
              | None => _row_id_for_row w (row c)
              end); [|apply step_none].
    cbn [conn set_conn]. apply step_number, normalized_or_None_strip.
Qed.

Lemma db_step_unique_email s0 db db' :
  db_step s0 db db' → unique_email db → unique_email db'.
Proof.
  intros [|e n db1 _ _ _ Hi|s i _|n i _|ids] Hu; [done|by eapply unique_email_INSERT|..].
  - intros j k r r'. cbn [UPDATE_status emails].
    intros (x & Hx & <-)%alter_email_lookup (y & Hy & <-)%alter_email_lookup;
      [|done..]. by eapply Hu.
  - intros j k r r'. cbn [UPDATE_number emails].
    intros (x & Hx & <-)%alter_email_lookup (y & Hy & <-)%alter_email_lookup;
      [|done..]. by eapply Hu.
  - intros j k r r' Hj%foldl_DELETE_sub Hk%foldl_DELETE_sub. by eapply Hu.
Qed.

Lemma db_step_ids s0 db db' :
  db_step s0 db db' →
  (sqlite_sequence db ≤ sqlite_sequence db')%Z
  ∧ (∀ i, is_Some (emails db' !! i) →
          is_Some (emails db !! i) ∨ (sqlite_sequence db < i)%Z)
  ∧ (ids_issued db → ids_issued db').
Proof.
  intros [|e n db1 _ _ _ [_ ->]%INSERT_inr|s i _|n i _|ids].
  - split; [lia|]. split; [by left|done].
  - cbn [emails sqlite_sequence]. split; [unfold next_id; lia|]. split.
    + intros i Hi. cbn [emails] in Hi.
      apply lookup_insert_is_Some in Hi as [<-|[_ Hi]]; [|by left].
      right. unfold next_id. lia.
    + intros Hs i Hi. cbn [emails sqlite_sequence] in *.
      apply lookup_insert_is_Some in Hi as [<-|[_ Hi]]; [done|].
      apply next_id_above in Hi. lia.
  - split; [done|]. split.
    + intros j Hj. cbn [UPDATE_status emails] in Hj.
      apply lookup_alter_is_Some in Hj. by left.
    + intros Hs j Hj. cbn [UPDATE_status emails sqlite_sequence] in *.
      apply lookup_alter_is_Some in Hj. by apply Hs.
  - split; [done|]. split.
    + intros j Hj. cbn [UPDATE_number emails] in Hj.
      apply lookup_alter_is_Some in Hj. by left.
    + intros Hs j Hj. cbn [UPDATE_number emails sqlite_sequence] in *.
      apply lookup_alter_is_Some in Hj. by apply Hs.
  - rewrite foldl_DELETE_seq. split; [lia|]. split.
    + intros j [r Hj%foldl_DELETE_sub]. left. by exists r.
    + intros Hs j [r Hj%foldl_DELETE_sub]. unfold ids_issued in Hs.
      rewrite foldl_DELETE_seq. apply Hs. by exists r.
Qed.

Lemma db_step_statuses s0 db db' :
  db_step s0 db db' → s0 ∈ STATUSES → statuses_valid db → statuses_valid db'.
Proof.
  intros [|e n db1 _ _ _ [_ ->]%INSERT_inr|s i Hs|n i _|ids] Hs0 Hv; [done|..].
  - intros j r Hj. cbn [emails] in Hj.
    apply lookup_insert_Some in Hj as [[_ <-]|[_ Hj]]; [done|by eapply Hv].
  - intros j r Hj. cbn [UPDATE_status emails] in Hj.
    apply lookup_alter_Some in Hj as [[_ (x & _ & ->)]|[_ Hj]];
      [done|by eapply Hv].
  - intros j r Hj. cbn [UPDATE_number emails] in Hj.
    apply lookup_alter_Some in Hj as [[_ (x & Hx & ->)]|[_ Hj]];
      [cbn [status]; by eapply Hv|by eapply Hv].
  - intros j r Hj%foldl_DELETE_sub. by eapply Hv.
Qed.

(** ** Padding of seed lines *)

(** X7: whitespace in front of and behind a seed line makes no difference:
    the line is recognized or skipped, and gives the same row, as without
    it. *)
Theorem parse_line_padding p line q :
  Forall (λ c, isspace c = true) p → Forall (λ c, isspace c = true) q →
  parse_line (p ++ line ++ q) = parse_line line
  ∧ parse_line (strip line) = parse_line line.
Proof.
  intros Fp Fq. unfold parse_line.
  by rewrite strip_pad, strip_idemp.
Qed.

Lemma parse_line_padding_witness :
  parse_line (py "   " ++ py "* [x] a@x.com (7)" ++ [9%N; 32%N])
  = parse_line (py "* [x] a@x.com (7)")
  ∧ parse_line (strip (py "* [x] a@x.com (7)")) = parse_line (py "* [x] a@x.com (7)").
Proof.
  apply (parse_line_padding (py "   ") (py "* [x] a@x.com (7)") [9%N; 32%N]).
  - apply (bool_decide_unpack _). vm_compute. exact I.
  - apply (bool_decide_unpack _). vm_compute. exact I.
Defined.

(** ** Rows of the seed parser *)

Lemma marker_status_valid st s : (st, s) ∈ marker_status → s ∈ STATUSES.
Proof.
  unfold marker_status. intros H.
  repeat (apply elem_of_cons in H as [[= _ ->]|H]);
    [by apply (bool_decide_unpack _); vm_compute..|by apply elem_of_nil in H].
Qed.

Lemma parse_seed_status SEED_TEXT e s n :
  (e, s, n) ∈ parse_seed SEED_TEXT → s ∈ STATUSES.
Proof.
  unfold parse_seed. intros (line & _ & Hl)%list_elem_of_omap.
  apply parse_line_inv in Hl as (m & st & ws & rest & _ & _ & Hst & Hs & _).
  by eapply marker_status_valid, marker_status_lookup.
Qed.

(** X8: every row that [parse_seed] returns has an email that is not empty
    and holds no whitespace, a status of [STATUSES], and a number without
    [)] that neither starts nor ends with whitespace. *)
Theorem parse_seed_rows SEED_TEXT e s n :
  (e, s, n) ∈ parse_seed SEED_TEXT →
  e ≠ [] ∧ Forall (λ c, isspace c = false) e
  ∧ s ∈ STATUSES
  ∧ Forall (λ c, c ≠ ch ")") n
  ∧ strip n = n.
Proof.
  unfold parse_seed. intros (line & _ & Hl)%list_elem_of_omap.
  apply parse_line_inv in Hl
    as (m & st & ws & rest & _ & _ & Hst & Hs & _ & _ & He & Fe & Hn).
  split; [done|]. split; [done|].
  split; [by eapply marker_status_valid, marker_status_lookup|].
  destruct Hn as [(_ & _ & ->)|(ws' & t & _ & _ & _ & _ & _ & Ft & ->)]; [done|].
  split; [|apply strip_idemp].
  destruct (strip_split t) as (p & q & Ht & _ & _). rewrite Ht in Ft.
  by apply Forall_app in Ft as [_ [? _]%Forall_app].
Qed.

Lemma parse_seed_rows_witness :
  py "a@x.com" ≠ [] ∧ Forall (λ c, isspace c = false) (py "a@x.com")
  ∧ py "used" ∈ STATUSES
  ∧ Forall (λ c, c ≠ ch ")") (py "7 8")
  ∧ strip (py "7 8") = py "7 8".
Proof.
  apply (parse_seed_rows (py "junk" ++ [10%N] ++ py " * [x]  a@x.com   ( 7 8 ) ")
           (py "a@x.com") (py "used") (py "7 8")).
  apply (bool_decide_unpack _). vm_compute. exact I.
Defined.

(** ** Line endings *)

Section endings.
Local Open Scope N_scope.

Lemma splitlines_from_terminator cur sep rest :
  terminator sep → (sep = [13] → head rest ≠ Some 10) →
  splitlines_from cur (sep ++ rest) = rev cur :: splitlines_from [] rest.
Proof.
  intros [->|(c & -> & Hc)] Hrest; [done|].
  simpl. rewrite Hc. destruct rest as [|c' rest]; [done|].
  destruct ((c =? 13) && (c' =? 10)) eqn:E; [|done].
  apply andb_prop in E as [->%N.eqb_eq ->%N.eqb_eq]. by destruct Hrest.
Qed.

Lemma head_end_lines ls :
  Forall no_linebreak ls → head (end_lines [13] ls) ≠ Some 10.
Proof.
  destruct 1 as [|l ls Hl _]; [done|].
  destruct Hl as [|c l Hc _]; [done|]. simpl. intros [= ->]. by vm_compute in Hc.
Qed.

Lemma splitlines_end_lines sep ls :
  terminator sep → Forall no_linebreak ls → splitlines (end_lines sep ls) = ls.
Proof.
  intros Hsep. induction 1 as [|l ls Hl Hls IH]; [done|].
  unfold splitlines, end_lines in *. cbn [mbind list_bind].
  change (mbind ?f ls) with (end_lines sep ls) in *.
  rewrite <- app_assoc, splitlines_from_app by done.
  rewrite splitlines_from_terminator; [|done|].
  - by rewrite app_nil_r, rev_involutive, IH.
  - intros ->. by apply head_end_lines.
Qed.

Lemma splitlines_from_no_linebreak (n : nat) s cur :
  (length s ≤ n)%nat → no_linebreak cur →
  Forall no_linebreak (splitlines_from cur s).
Proof.
  revert s cur. induction n as [|n IH]; intros s cur Hn Hcur.
  { destruct s; [|simpl in Hn; lia]. simpl. destruct cur; [constructor|].
    constructor; [|constructor]. by apply Forall_rev. }
  destruct s as [|c s].
  { simpl. destruct cur; [constructor|].
    constructor; [|constructor]. by apply Forall_rev. }
  simpl in Hn. simpl. destruct (islinebreak c) eqn:Hc.
  - constructor; [by apply Forall_rev|].
    destruct s as [|c' s]; [constructor|]. simpl in Hn.
    destruct ((c =? 13) && (c' =? 10)).
    + apply IH; [lia|constructor].
    + apply IH; [simpl; lia|constructor].
  - apply IH; [lia|]. by constructor.
Qed.
End endings.

(** X9: a text whose lines each end with a terminator, be it one line
    boundary character or ["\r\n"], splits back into exactly these lines,
    so a seed document parses to the same rows whatever its line endings;
    and no line that [splitlines] returns holds a line boundary. *)
Theorem splitlines_terminated sep ls :
  terminator sep → Forall no_linebreak ls →
  splitlines (end_lines sep ls) = ls
  ∧ parse_seed (end_lines sep ls) = omap parse_line ls
  ∧ parse_seed (end_lines sep ls) = parse_seed (join_lines ls)
  ∧ (∀ s, Forall no_linebreak (splitlines s)).
Proof.
  intros Hsep Hls. pose proof (splitlines_end_lines sep ls Hsep Hls) as H.
  split; [done|]. unfold parse_seed at 1 2. rewrite H.
  split; [done|]. split; [by rewrite parse_seed_join_lines|].
  intros s. by apply (splitlines_from_no_linebreak (length s)); [|constructor].
Qed.

Lemma splitlines_terminated_witness :
  let ls := [py "* [x] a@x.com (7)"; py ""; py "* [o] b@x.com"] in
  let sep := [13%N; 10%N] in
  splitlines (end_lines sep ls) = ls
  ∧ parse_seed (end_lines sep ls) = omap parse_line ls
  ∧ parse_seed (end_lines sep ls) = parse_seed (join_lines ls)
  ∧ (∀ s, Forall no_linebreak (splitlines s)).
Proof.
  apply (splitlines_terminated [13%N; 10%N]
           [py "* [x] a@x.com (7)"; py ""; py "* [o] b@x.com"]).
  - by left.
  - apply (bool_decide_unpack _). vm_compute. exact I.
Defined.

(** ** The window between events *)

Lemma shown_ids_load_rows w :
  shown_ids (_load_rows w) = Some <$> (SELECT_ordered (conn w)).*1.
Proof.
  unfold shown_ids. rewrite _load_rows_eq. cbn [table].
  rewrite <- !list_fmap_compose. apply list_fmap_ext. by intros _ [i r] _.
Qed.

Lemma consistent_load_rows w :
  unique_email (conn w) → ids_issued (conn w) → consistent (_load_rows w).
Proof.
  intros Hu Hs. unfold consistent. rewrite conn_load_rows, shown_ids_load_rows.
  split; [by rewrite _load_rows_eq|]. split; [done|]. split; [done|].
  split; [apply (NoDup_fmap_2 Some), SELECT_ordered_NoDup_ids|].
  intros o. rewrite list_elem_of_fmap. split.
  - intros (i & -> & ([j r] & -> & Hin)%list_elem_of_fmap).
    exists j. split; [done|]. exists r. by apply SELECT_ordered_elem.
  - intros (i & -> & [r Hr]). exists i. split; [done|].
    apply list_elem_of_fmap. exists (i, r). split; [done|].
    by apply SELECT_ordered_elem.
Qed.

Lemma handle_loading w ev : _loading w = false → _loading (handle w ev) = false.
Proof.
  intros Hl. destruct ev as [e s n|sel| |confirm|row_id s|c]; cbn [handle]; try done.
  - unfold _add_email. destruct (strip (email_input w)); [done|].
    destruct (INSERT _ _ _ _) as [[]|db]; [done..|]. cbn [fst].
    by rewrite _load_rows_eq.
  - unfold _delete_selected. case_decide; [done|].
    destruct confirm; [|done]. by rewrite _load_rows_eq.
  - unfold _update_status. rewrite Hl. by case_decide.
  - unfold _on_item_changed. rewrite Hl. case_decide; [done|].
    by destruct (match data (item c) with Some i => Some i | None => _ end).
Qed.

(** An event either reloads the view from the table or leaves the view
    alone and the set of [id]s of the table as it is. *)
Lemma handle_view w ev :
  (∃ w1, handle w ev = _load_rows w1)
  ∨ (table (handle w ev) = table w
     ∧ ∀ i, is_Some (emails (conn (handle w ev)) !! i)
            ↔ is_Some (emails (conn w) !! i)).
Proof.
  destruct ev as [e s n|sel| |confirm|row_id s|c]; cbn [handle].
  - by right.
  - by right.
  - unfold _add_email. destruct (strip (email_input w)); [by right|].
    destruct (INSERT _ _ _ _) as [[]|db]; [by right..|]. left. by eexists.
  - unfold _delete_selected. case_decide; [by right|].
    destruct confirm; [|by right]. left. by eexists.
  - right. unfold _update_status. destruct (_loading w); [done|].
    case_decide; [done|]. split; [done|]. intros i.
    cbn [conn set_conn UPDATE_status emails]. apply lookup_alter_is_Some.
  - right. unfold _on_item_changed. destruct (_loading w); [done|].
    case_decide; [done|].
    destruct (match data (item c) with Some i => Some i | None => _ end); [|done].
    split; [done|]. intros i.
    cbn [conn set_conn UPDATE_number emails]. apply lookup_alter_is_Some.
Qed.

(** X6: whatever the event, the table changes by at most one kind of
    statement: it stays, or one row is inserted with a trimmed email that
    is not empty, the status chosen in the form and a number that is
    absent or a trimmed text that is not empty, or one status is set to a
    member of [STATUSES], or one number is set to nothing or to a trimmed
    text that is not empty, or rows are deleted.  The rows on display are
    then either rebuilt by a reload or carry the same [id]s as before,
    with the same [id]s in the table; and an event that finds the window
    outside reloading mode leaves it there. *)
Theorem handle_db_step w ev :
  db_step (status_input w) (conn w) (conn (handle w ev))
  ∧ ((∃ w1, handle w ev = _load_rows w1)
     ∨ (shown_ids (handle w ev) = shown_ids w
        ∧ ∀ i, is_Some (emails (conn (handle w ev)) !! i)
               ↔ is_Some (emails (conn w) !! i)))
  ∧ (_loading w = false → _loading (handle w ev) = false).
Proof.
  split; [apply handle_conn_step|]. split; [|apply handle_loading].
  destruct (handle_view w ev) as [H|[Ht Hdom]]; [by left|right].
  split; [|done]. unfold shown_ids. by rewrite Ht.
Qed.

Lemma handle_consistent w ev : consistent w → consistent (handle w ev).
Proof.
  intros (Hl & Hu & Hs & Hnd & Hin).
  pose proof (handle_conn_step w ev) as Hstep.
  assert (Hu' : unique_email (conn (handle w ev)))
    by (by eapply db_step_unique_email).
  assert (Hs' : ids_issued (conn (handle w ev)))
    by (by eapply db_step_ids).
  destruct (handle_view w ev) as [[w1 Hw1]|[Ht Hdom]].
  - rewrite Hw1 in *. rewrite conn_load_rows in Hu', Hs'.
    by apply consistent_load_rows.
  - split; [by apply handle_loading|]. split; [done|]. split; [done|].
    unfold shown_ids. rewrite Ht. split; [done|].
    intros o. rewrite (Hin o). by setoid_rewrite Hdom.
Qed.

Lemma executemany_ind (P : Db → Prop) rows db db' :
  (∀ db e s n db', (e, s, n) ∈ rows → P db →
                   INSERT db e s (Some n) = inr db' → P db') →
  P db → executemany db rows = inr db' → P db'.
Proof.
  revert db. induction rows as [|[[e s] n] rows IH]; intros db HP Hdb; simpl.
  - by intros [= <-].
  - destruct (INSERT db e s (Some n)) as [|db1] eqn:Hi; [done|].
    apply IH.
    + intros db2 e2 s2 n2 db3 Hin. apply HP. by right.
    + eapply HP; [by left|exact Hdb|exact Hi].
Qed.

Lemma ensure_seed_data_ind (P : Db → Prop) SEED_TEXT db db' :
  (∀ db e s n db', (e, s, n) ∈ parse_seed SEED_TEXT → P db →
                   INSERT db e s (Some n) = inr db' → P db') →
  P db → _ensure_seed_data SEED_TEXT db = inr db' → P db'.
Proof.
  intros HP Hdb. unfold _ensure_seed_data. case_decide; [by intros [= <-]|].
  destruct (parse_seed SEED_TEXT) as [|row rows] eqn:E; [by intros [= <-]|].
  by apply executemany_ind.
Qed.

Lemma init_db_on_disk (P : Db → Prop) disk :
  P {| emails := ∅; sqlite_sequence := 0 |} → on_disk P disk → P (_init_db disk).
Proof. intros H0 H. by destruct disk. Qed.

Lemma unique_email_empty s : unique_email {| emails := ∅; sqlite_sequence := s |}.
Proof. intros i j r r' H. cbn [emails] in H. by rewrite lookup_empty in H. Qed.

Lemma ids_issued_empty s : ids_issued {| emails := ∅; sqlite_sequence := s |}.
Proof. intros i [r H]. cbn [emails] in H. by rewrite lookup_empty in H. Qed.

Lemma statuses_valid_empty s : statuses_valid {| emails := ∅; sqlite_sequence := s |}.
Proof. intros i r H. cbn [emails] in H. by rewrite lookup_empty in H. Qed.

Lemma init_inr SEED_TEXT disk w :
  __init__ SEED_TEXT disk = inr w →
  ∃ db, _ensure_seed_data SEED_TEXT (_init_db disk) = inr db
        ∧ w = _load_rows (_build_ui db).
Proof.
  unfold __init__.
  destruct (_ensure_seed_data SEED_TEXT (_init_db disk)) as [|db]; [done|].
  intros [= <-]. by exists db.
Qed.

Lemma run_consistent w evs : consistent w → consistent (foldl handle w evs).
Proof.
  revert w. induction evs as [|ev evs IH]; intros w Hw; [done|].
  cbn [foldl]. by apply IH, handle_consistent.
Qed.

Lemma fresh_consistent : consistent (_load_rows (_build_ui (_init_db None))).
Proof.
  apply consistent_load_rows; [apply unique_email_empty|apply ids_issued_empty].
Qed.

(** X10: from a start on no database, or on one that satisfies the
    uniqueness constraint and whose [id]s were handed out by the sequence,
    the window is consistent after every sequence of events: it is not in
    reloading mode, no two rows of the table have the same email, every
    [id] is at most the sequence, and the rows on display carry exactly the
    [id]s of the table, each once; so a selected row always resolves to an
    entry of the table. *)
Theorem window_consistent SEED_TEXT disk w evs :
  on_disk (λ db, unique_email db ∧ ids_issued db) disk →
  __init__ SEED_TEXT disk = inr w →
  consistent (foldl handle w evs).
Proof.
  intros Hdisk (db & Hseed & ->)%init_inr.
  assert (Hw : consistent (_load_rows (_build_ui db))).
  { assert (unique_email db ∧ ids_issued db) as [Hu Hs].
    { eapply (ensure_seed_data_ind (λ db, unique_email db ∧ ids_issued db));
        [| |exact Hseed].
      - intros db1 e s n db2 _ [Hu Hs] Hi. split.
        + by eapply unique_email_INSERT.
        + by eapply ids_issued_INSERT.
      - apply (init_db_on_disk (λ db, unique_email db ∧ ids_issued db)); [|done].
        split; [apply unique_email_empty|apply ids_issued_empty]. }
    by apply consistent_load_rows. }
  by apply run_consistent.
Qed.

Lemma window_consistent_witness :
  consistent
    (foldl handle
       (match __init__ (py "* [x] a@x.com (7)") None with
        | inr w => w
        | inl _ => _build_ui (_init_db None)
        end)
       [Edit_form (py "b@x.com") (py "using") (py "");
        Add_clicked;
        Status_changed 1 (py "leftover");
        Item_changed {| row := 0; column := 2;
                        item := {| text := py " 9 "; data := Some 2%Z |} |};
        Select_items [(0, 0)];
        Delete_clicked Yes]).
Proof.
  apply (window_consistent (py "* [x] a@x.com (7)") None).
  - exact I.
  - vm_compute. reflexivity.
Defined.

Lemma handle_status_input w ev :
  offered ev → status_input w ∈ STATUSES → status_input (handle w ev) ∈ STATUSES.
Proof.
  intros Hev Hw. destruct ev as [e s n|sel| |confirm|row_id s|c]; cbn [handle]; try done.
  - unfold _add_email. destruct (strip (email_input w)); [done|].
    destruct (INSERT _ _ _ _) as [[]|db]; [done..|]. cbn [fst].
    by rewrite _load_rows_eq.
  - unfold _delete_selected. case_decide; [done|].
    destruct confirm; [|done]. by rewrite _load_rows_eq.
  - unfold _update_status. destruct (_loading w); [done|]. by case_decide.
  - unfold _on_item_changed. destruct (_loading w); [done|]. case_decide; [done|].
    by destruct (match data (item c) with Some i => Some i | None => _ end).
Qed.

(** X11: from a start on no database, or on one whose statuses are all
    members of [STATUSES], every status in the table is a member of
    [STATUSES] after every sequence of events in which the form offers
    the statuses of [STATUSES] only: the seed import, Add and the status
    change write no other status. *)
Theorem statuses_stay_valid SEED_TEXT disk w evs :
  on_disk statuses_valid disk →
  __init__ SEED_TEXT disk = inr w →
  Forall offered evs →
  statuses_valid (conn (foldl handle w evs))
  ∧ status_input (foldl handle w evs) ∈ STATUSES.
Proof.
  intros Hdisk (db & Hseed & ->)%init_inr Hevs.
  assert (Hw : statuses_valid (conn (_load_rows (_build_ui db)))
               ∧ status_input (_load_rows (_build_ui db)) ∈ STATUSES).
  { rewrite _load_rows_eq. cbn [conn status_input _build_ui]. split.
    - eapply (ensure_seed_data_ind statuses_valid); [| |exact Hseed].
      + intros db1 e s n db2 Hin Hv [_ ->]%INSERT_inr i r Hi.
        cbn [emails] in Hi.
        apply lookup_insert_Some in Hi as [[_ <-]|[_ Hi]]; [|by eapply Hv].
        by apply parse_seed_status in Hin.
      + apply (init_db_on_disk statuses_valid); [|done].
        apply statuses_valid_empty.
    - by apply (bool_decide_unpack _); vm_compute. }
  revert Hw. generalize (_load_rows (_build_ui db)). clear -Hevs.
  induction Hevs as [|ev evs Hev _ IH]; intros w [Hv Hs]; [done|].
  cbn [foldl]. apply IH. split.
  - eapply db_step_statuses; [apply handle_conn_step|done..].
  - by apply handle_status_input.
Qed.

Lemma statuses_stay_valid_witness :
  let w := foldl handle
             (match __init__ (py "* [x] a@x.com (7)") None with
              | inr w => w
              | inl _ => _build_ui (_init_db None)
              end)
             [Edit_form (py "b@x.com") (py "using") (py "");
              Add_clicked;
              Status_changed 1 (py "archived");
              Status_changed 2 (py "leftover")] in
  statuses_valid (conn w) ∧ status_input w ∈ STATUSES.
Proof.
  apply (statuses_stay_valid (py "* [x] a@x.com (7)") None).
  - exact I.
  - vm_compute. reflexivity.
  - repeat constructor.
Defined.

(** X12: an [id] is never assigned twice.  Every event leaves the sequence
    where it is or moves it up, and a row that an event adds gets an [id]
    above the sequence; so once the [id]s of the table are within the
    sequence, an [id] within the sequence that no row has, such as the one
    of a deleted entry, is not given to any row by any sequence of
    events. *)
Theorem id_never_reused w evs i :
  ids_issued (conn w) →
  (i ≤ sqlite_sequence (conn w))%Z →
  emails (conn w) !! i = None →
  emails (conn (foldl handle w evs)) !! i = None
  ∧ (sqlite_sequence (conn w) ≤ sqlite_sequence (conn (foldl handle w evs)))%Z.
Proof.
  revert w. induction evs as [|ev evs IH]; intros w Hs Hi Hnone; [done|].
  cbn [foldl].
  destruct (db_step_ids _ _ _ (handle_conn_step w ev)) as (Hle & Hnew & Hs').
  destruct (IH (handle w ev)) as [H1 H2]; [by apply Hs'|lia| |split; [done|lia]].
  apply eq_None_not_Some. intros [H|H]%Hnew; [|lia].
  rewrite Hnone in H. by destruct H.
Qed.

Lemma ids_issued_Forall db :
  map_Forall (λ i _, (i ≤ sqlite_sequence db)%Z) (emails db) → ids_issued db.
Proof. intros H i [r Hr]. by apply (H i r). Qed.

Lemma id_never_reused_witness :
  let w := _delete_selected
             (select [(0, 0)]
                (add "b@x.com" "unused" ""
                   (add "a@x.com" "using" "" (_build_ui (_init_db None))))) Yes in
  let evs := [Edit_form (py "c@x.com") (py "using") (py ""); Add_clicked;
              Edit_form (py "a@x.com") (py "using") (py ""); Add_clicked] in
  emails (conn (foldl handle w evs)) !! 1%Z = None
  ∧ (sqlite_sequence (conn w) ≤ sqlite_sequence (conn (foldl handle w evs)))%Z.
Proof.
  apply (id_never_reused
           (_delete_selected
              (select [(0, 0)]
                 (add "b@x.com" "unused" ""
                    (add "a@x.com" "using" "" (_build_ui (_init_db None))))) Yes)
           [Edit_form (py "c@x.com") (py "using") (py ""); Add_clicked;
            Edit_form (py "a@x.com") (py "using") (py ""); Add_clicked]
           1%Z).
  - apply ids_issued_Forall, (bool_decide_unpack _). vm_compute. exact I.
  - vm_compute. discriminate.
  - vm_compute. reflexivity.
Defined.

(** ** The seed import *)

Lemma max_rowid_nonneg (t : gmap Z Row) : (0 ≤ max_rowid t)%Z.
Proof.
  unfold max_rowid.
  apply (map_fold_weak_ind (λ r (_ : gmap Z Row), (0 ≤ r)%Z)); [done|].
  intros. lia.
Qed.

Lemma max_rowid_le (t : gmap Z Row) b :
  (0 ≤ b)%Z → (∀ i, is_Some (t !! i) → (i ≤ b)%Z) → (max_rowid t ≤ b)%Z.
Proof.
  intros Hb. unfold max_rowid.
  apply (map_fold_weak_ind
           (λ r (m : gmap Z Row), (∀ i, is_Some (m !! i) → (i ≤ b)%Z) → (r ≤ b)%Z));
    [done|].
  intros i x m r Hi IH H.
  assert (i ≤ b)%Z by (apply H; rewrite lookup_insert_eq; eauto).
  assert (r ≤ b)%Z; [|lia].
  apply IH. intros j Hj. apply H. rewrite lookup_insert_ne; [done|].
  intros ->. rewrite Hi in Hj. by destruct Hj.
Qed.

Lemma next_id_INSERT db e s n db' :
  INSERT db e s n = inr db' → next_id db' = (next_id db + 1)%Z.
Proof.
  intros [_ ->]%INSERT_inr. unfold next_id at 1. cbn [emails sqlite_sequence].
  pose proof (max_rowid_nonneg (emails db)).
  assert (max_rowid (<[next_id db:={| email := e; status := s; number := n |}]>
                       (emails db)) ≤ next_id db)%Z; [|lia].
  apply max_rowid_le; [unfold next_id; lia|].
  intros i [<-|[_ Hi]]%lookup_insert_is_Some; [done|].
  apply next_id_above in Hi. lia.
Qed.

Lemma email_taken_INSERT db e s n db' e' :
  INSERT db e s n = inr db' →
  email_taken e' (emails db') ↔ e' = e ∨ email_taken e' (emails db).
Proof.
  intros [_ ->]%INSERT_inr. cbn [emails]. rewrite !email_taken_lookup. split.
  - intros (i & r & [[_ <-]|[_ Hi]]%lookup_insert_Some & <-); [by left|].
    right. eauto.
  - intros [->|(i & r & Hi & <-)].
    + eexists _, _. by rewrite lookup_insert_eq.
    + exists i, r. split; [|done]. rewrite lookup_insert_ne; [done|].
      intros <-. by rewrite next_id_fresh in Hi.
Qed.

Lemma executemany_inr rows db db' :
  executemany db rows = inr db' →
  NoDup rows.*1.*1 ∧ ∀ e, e ∈ rows.*1.*1 → ¬ email_taken e (emails db).
Proof.
  revert db. induction rows as [|[[e s] n] rows IH]; intros db.
  { intros _. split; [constructor|]. by intros e ?%elem_of_nil. }
  cbn [executemany]. destruct (INSERT db e s (Some n)) as [|db1] eqn:Hi; [done|].
  intros [Hnd Hfree]%IH. pose proof Hi as [Hne _]%INSERT_inr.
  cbn [fmap list_fmap fst]. split.
  - constructor; [|done]. intros Hin. apply (Hfree e Hin).
    apply (email_taken_INSERT _ _ _ _ _ e Hi). by left.
  - intros e' [->|Hin]%elem_of_cons; [done|]. intros Ht. apply (Hfree e' Hin).
    apply (email_taken_INSERT _ _ _ _ _ e' Hi). by right.
Qed.

Lemma executemany_free rows db :
  (next_id db + Z.of_nat (length rows) ≤ MAX_ROWID + 1)%Z →
  NoDup rows.*1.*1 → (∀ e, e ∈ rows.*1.*1 → ¬ email_taken e (emails db)) →
  ∃ db', executemany db rows = inr db'
         ∧ (∀ k e s n, rows !! k = Some (e, s, n) →
              emails db' !! (next_id db + Z.of_nat k)%Z
              = Some {| email := e; status := s; number := Some n |})
         ∧ (∀ j, (j < next_id db)%Z → emails db' !! j = emails db !! j)
         ∧ COUNT db' = COUNT db + length rows
         ∧ next_id db' = (next_id db + Z.of_nat (length rows))%Z.
Proof.
  revert db. induction rows as [|[[e s] n] rows IH]; intros db Hcap Hnd Hfree.
  { exists db. split; [done|]. split; [done|]. split; [done|].
    split; [done|]. simpl. lia. }
  cbn [fmap list_fmap fst] in Hnd, Hfree. apply NoDup_cons in Hnd as [Hnin Hnd].
  assert (Hne : ¬ email_taken e (emails db)) by (apply Hfree; by left).
  assert (Hroom : ¬ exhausted db).
  { rewrite exhausted_next_id. simpl length in Hcap. lia. }
  pose proof (INSERT_free db e s (Some n) Hroom Hne) as Hi.
  pose proof (next_id_INSERT _ _ _ _ _ Hi) as Hnext.
  destruct (IH {| emails :=
                    <[next_id db:={| email := e; status := s; number := Some n |}]>
                      (emails db);
                  sqlite_sequence := next_id db |}) as
    (db' & Hex & Hrows & Hold & Hcount & Hnext').
  { rewrite Hnext. simpl length in Hcap. lia. }
  { done. }
  { intros e' Hin [->|Ht]%(email_taken_INSERT _ _ _ _ _ e' Hi); [done|].
    apply (Hfree e'); [by right|done]. }
  exists db'. cbn [executemany]. rewrite Hi. split; [done|].
  rewrite Hnext in Hrows, Hold, Hnext'. cbn [emails] in Hold.
  split; [|split; [|split]].
  - intros [|k] e' s' n' Hk.
    + injection Hk as -> -> ->. rewrite Z.add_0_r, Hold by lia.
      by rewrite lookup_insert_eq.
    + rewrite <- (Hrows k e' s' n' Hk). f_equal. lia.
  - intros j Hj. rewrite Hold by lia. rewrite lookup_insert_ne; [done|lia].
  - rewrite Hcount. unfold COUNT. cbn [emails].
    rewrite map_size_insert_None by apply next_id_fresh. simpl. lia.
  - rewrite Hnext'. simpl length. lia.
Qed.

Lemma executemany_inl rows db x :
  (next_id db + Z.of_nat (length rows) ≤ MAX_ROWID + 1)%Z →
  executemany db rows = inl x → x = IntegrityError.
Proof.
  revert db. induction rows as [|[[e s] n] rows IH]; intros db Hcap; [done|].
  cbn [executemany]. simpl length in Hcap.
  destruct (INSERT db e s (Some n)) as [y|db1] eqn:Hi.
  - intros [= <-]. unfold INSERT in Hi.
    case_decide as Hx; [apply exhausted_next_id in Hx; lia|].
    case_decide; [by injection Hi|done].
  - apply IH. rewrite (next_id_INSERT _ _ _ _ _ Hi). lia.
Qed.

(** X13: the seed import into an empty table.  When the store has as many
    [id]s left as the document has rows: if the emails of the parsed rows
    are pairwise different, every row is inserted, in document order, under
    consecutive [id]s from the next one on, with the parsed status and
    number, and the count is the number of rows; if two parsed rows have
    the same email, the import raises [IntegrityError], and so does
    [__init__].  When the store has no [id] left and the document has a
    row, the import and [__init__] raise "database or disk is full". *)
Theorem ensure_seed_data_empty SEED_TEXT db :
  COUNT db = 0 →
  ((next_id db + Z.of_nat (length (parse_seed SEED_TEXT)) ≤ MAX_ROWID + 1)%Z →
   (NoDup (parse_seed SEED_TEXT).*1.*1 →
    ∃ db', _ensure_seed_data SEED_TEXT db = inr db'
           ∧ COUNT db' = length (parse_seed SEED_TEXT)
           ∧ ∀ k e s n, parse_seed SEED_TEXT !! k = Some (e, s, n) →
               emails db' !! (next_id db + Z.of_nat k)%Z
               = Some {| email := e; status := s; number := Some n |})
   ∧ (¬ NoDup (parse_seed SEED_TEXT).*1.*1 →
      _ensure_seed_data SEED_TEXT db = inl IntegrityError
      ∧ __init__ SEED_TEXT (Some db) = inl IntegrityError))
  ∧ (exhausted db → parse_seed SEED_TEXT ≠ [] →
     _ensure_seed_data SEED_TEXT db = inl OperationalError
     ∧ __init__ SEED_TEXT (Some db) = inl OperationalError).
Proof.
  intros Hc.
  assert (Hempty : ∀ e, ¬ email_taken e (emails db)).
  { intros e (i & r & Hi & _)%email_taken_lookup.
    apply map_size_empty_iff in Hc. rewrite Hc in Hi. by rewrite lookup_empty in Hi. }
  assert (Hinit : ∀ x, _ensure_seed_data SEED_TEXT db = inl x →
                       __init__ SEED_TEXT (Some db) = inl x).
  { intros x H. unfold __init__. change (_init_db (Some db)) with db. by rewrite H. }
  split; [intros Hcap; split|].
  - intros Hnd. unfold _ensure_seed_data.
    rewrite decide_False by (by intros H; apply H).
    destruct (executemany_free _ db Hcap Hnd) as (db' & Hex & Hrows & _ & Hcount & _);
      [by intros e _|].
    destruct (parse_seed SEED_TEXT) as [|row rows] eqn:E.
    + exists db. split; [done|]. split; [done|]. by intros k e s n Hk.
    + exists db'. split; [done|]. split; [|done]. rewrite Hcount, Hc. done.
  - intros Hnd.
    assert (H : _ensure_seed_data SEED_TEXT db = inl IntegrityError).
    { unfold _ensure_seed_data.
      rewrite decide_False by (by intros H; apply H).
      destruct (parse_seed SEED_TEXT) as [|row rows] eqn:E.
      { destruct Hnd. constructor. }
      destruct (executemany db (row :: rows)) as [x|db'] eqn:Hex.
      - by rewrite (executemany_inl _ _ _ Hcap Hex).
      - by apply executemany_inr in Hex as [? _]. }
    split; [done|]. by apply Hinit.
  - intros Hx Hrows.
    assert (H : _ensure_seed_data SEED_TEXT db = inl OperationalError).
    { unfold _ensure_seed_data.
      rewrite decide_False by (by intros H; apply H).
      destruct (parse_seed SEED_TEXT) as [|[[e s] n] rows]; [done|].
      cbn [executemany]. by rewrite (INSERT_exhausted _ _ _ _ Hx). }
    split; [done|]. by apply Hinit.
Qed.

Lemma ensure_seed_data_empty_witness :
  let SEED_TEXT := join_lines [py "* [x] a@x.com (7)"; py "* [o] b@x.com";
                               py "* [-] a@x.com"] in
  let db := _init_db None in
  ((next_id db + Z.of_nat (length (parse_seed SEED_TEXT)) ≤ MAX_ROWID + 1)%Z →
   (NoDup (parse_seed SEED_TEXT).*1.*1 →
    ∃ db', _ensure_seed_data SEED_TEXT db = inr db'
           ∧ COUNT db' = length (parse_seed SEED_TEXT)
           ∧ ∀ k e s n, parse_seed SEED_TEXT !! k = Some (e, s, n) →
               emails db' !! (next_id db + Z.of_nat k)%Z
               = Some {| email := e; status := s; number := Some n |})
   ∧ (¬ NoDup (parse_seed SEED_TEXT).*1.*1 →
      _ensure_seed_data SEED_TEXT db = inl IntegrityError
      ∧ __init__ SEED_TEXT (Some db) = inl IntegrityError))
  ∧ (exhausted db → parse_seed SEED_TEXT ≠ [] →
     _ensure_seed_data SEED_TEXT db = inl OperationalError
     ∧ __init__ SEED_TEXT (Some db) = inl OperationalError).
Proof.
  apply (ensure_seed_data_empty
           (join_lines [py "* [x] a@x.com (7)"; py "* [o] b@x.com";
                        py "* [-] a@x.com"])
           (_init_db None)).
  reflexivity.
Defined.

(** ** The grammar of seed lines *)

Lemma parse_line_strip line : parse_line (strip line) = parse_line line.
Proof. unfold parse_line. by rewrite strip_idemp. Qed.

(** X14: the lines that give a row are, after trimming, exactly those of
    the form [* [m]], whitespace, an email token, and then either nothing
    or whitespace and one parenthesized text without [)] that ends the
    line; the row has that email, the status that the marker [m] stands
    for, and the trimmed text as its number (empty without a suffix).  Any
    other line is skipped. *)
Theorem parse_line_grammar line e s n :
  parse_line line = Some (e, s, n)
  ↔ ∃ st ws,
      (st, s) ∈ marker_status
      ∧ ws ≠ [] ∧ Forall (λ c, isspace c = true) ws
      ∧ e ≠ [] ∧ Forall (λ c, isspace c = false) e
      ∧ ((strip line = py "* [" ++ [st] ++ py "]" ++ ws ++ e ∧ n = [])
         ∨ ∃ ws' t,
             ws' ≠ [] ∧ Forall (λ c, isspace c = true) ws'
             ∧ t ≠ [] ∧ Forall (λ c, c ≠ ch ")") t
             ∧ strip line
               = py "* [" ++ [st] ++ py "]" ++ ws ++ e ++ ws' ++ py "(" ++ t ++ py ")"
             ∧ n = strip t).
Proof.
  split.
  - intros (m & st & ws & rest & _ & Hl & Hst & Hs & Hws & Fws & He & Fe & Hn)%parse_line_inv.
    exists st, ws. split; [by apply marker_status_lookup|].
    do 4 (split; [done|]).
    destruct Hn as [(_ & -> & ->)|(ws' & t & _ & -> & ? & ? & ? & ? & ->)].
    + left. by rewrite app_nil_r in Hl.
    + right. by exists ws', t.
  - intros (st & ws & Hin & Hws & Fws & He & Fe & H).
    assert (Hst : st ∈ py "xo- ").
    { unfold marker_status in Hin.
      repeat (apply elem_of_cons in Hin as [[= -> _]|Hin]);
        [by apply (bool_decide_unpack _); vm_compute..|by apply elem_of_nil in Hin]. }
    pose proof (proj2 (marker_status_lookup st s Hst) Hin) as Hs.
    rewrite <- parse_line_strip.
    destruct H as [[-> ->]|(ws' & t & Hws' & Fws' & Ht & Ft & -> & ->)].
    + by apply (parse_line_plain st s ws e).
    + by apply (parse_line_numbered st s ws e ws' t).
Qed.

(** ** Delete in a consistent window *)

Lemma delete_selected_yes w :
  selectedItems w ≠ [] →
  _delete_selected w Yes
  = _load_rows
      (set_conn
         (foldl DELETE (conn w)
            (omap (_row_id_for_row w)
               (sorted_reverse (list_to_set (fst <$> selectedItems w))))) w).
Proof.
  intros Hsel. unfold _delete_selected. rewrite decide_False.
  - by rewrite foldl_DELETE_omap.
  - destruct (selectedItems w) as [|[row col] sel]; [done|].
    simpl. intros E. assert (row ∈ (∅ : gset nat)) as Hin.
    + rewrite <- E. apply elem_of_union. left. by apply elem_of_singleton.
    + by apply not_elem_of_empty in Hin.
Qed.

Lemma dom_foldl_DELETE ids db :
  dom (emails (foldl DELETE db ids)) = dom (emails db) ∖ list_to_set ids.
Proof.
  revert db. induction ids as [|i ids IH]; intros db.
  - simpl. by rewrite difference_empty_L.
  - cbn [foldl]. rewrite IH. cbn [DELETE emails].
    by rewrite dom_delete_L, difference_difference_l_L.
Qed.

Lemma resolved_shown w i : i ∈ resolved_ids w → Some i ∈ shown_ids w.
Proof.
  unfold resolved_ids, shown_ids. intros (k & _ & Hk)%list_elem_of_omap.
  unfold _row_id_for_row in Hk.
  destruct (table w !! k) as [r|] eqn:E; [|done].
  apply list_elem_of_fmap. exists r. split; [done|].
  by eapply list_elem_of_lookup_2.
Qed.

(** X15: in a consistent window every selected row resolves to an entry of
    the table, and a confirmed delete takes as many entries off the table
    as the selection resolves to different [id]s; the reloaded view shows
    none of them, the selection is cleared and the window is consistent
    again. *)
Theorem delete_selected_count w :
  consistent w → selectedItems w ≠ [] →
  (∀ i, i ∈ resolved_ids w → is_Some (emails (conn w) !! i))
  ∧ COUNT (conn (_delete_selected w Yes))
    + size (list_to_set (resolved_ids w) : gset Z)
    = COUNT (conn w)
  ∧ (∀ k i, _row_id_for_row (_delete_selected w Yes) k = Some i →
            (i ∉ resolved_ids w) ∧ is_Some (emails (conn w) !! i))
  ∧ selectedItems (_delete_selected w Yes) = []
  ∧ consistent (_delete_selected w Yes).
Proof.
  intros Hw Hsel. pose proof Hw as (_ & _ & _ & _ & Hin).
  assert (Hres : ∀ i, i ∈ resolved_ids w → is_Some (emails (conn w) !! i)).
  { intros i Hi%resolved_shown%Hin. by destruct Hi as (j & [= <-] & ?). }
  split; [done|].
  assert (Hset : (list_to_set
                    (omap (_row_id_for_row w)
                       (sorted_reverse (list_to_set (fst <$> selectedItems w))))
                  : gset Z)
                 = list_to_set (resolved_ids w)).
  { apply set_eq. intros i. rewrite !elem_of_list_to_set.
    apply resolved_sorted_reverse. }
  split; [|split; [|split]].
  - rewrite delete_selected_yes, conn_load_rows by done. cbn [conn set_conn].
    unfold COUNT. rewrite <- !(size_dom (D := gset Z)).
    rewrite dom_foldl_DELETE, Hset, size_difference.
    + assert (size (list_to_set (resolved_ids w) : gset Z)
              ≤ size (dom (emails (conn w)))); [|lia].
      apply subseteq_size. intros i Hi%elem_of_list_to_set%Hres.
      by apply elem_of_dom.
    + intros i Hi%elem_of_list_to_set%Hres. by apply elem_of_dom.
  - intros k i. rewrite delete_selected_yes by done.
    rewrite row_id_load_rows. cbn [conn set_conn].
    destruct (SELECT_ordered _ !! k) as [[j r]|] eqn:E; [|done].
    intros [= ->]. apply list_elem_of_lookup_2, SELECT_ordered_elem in E.
    assert (Hd : i ∈ dom (emails
                (foldl DELETE (conn w)
                   (omap (_row_id_for_row w)
                      (sorted_reverse (list_to_set (fst <$> selectedItems w)))))))
      by (apply elem_of_dom; eauto).
    rewrite dom_foldl_DELETE, Hset in Hd.
    apply elem_of_difference in Hd as [Hd Hn]. split.
    + by rewrite elem_of_list_to_set in Hn.
    + by apply elem_of_dom.
  - rewrite delete_selected_yes by done. by rewrite _load_rows_eq.
  - by apply (handle_consistent w (Delete_clicked Yes)).
Qed.

Lemma delete_selected_count_witness :
  let w := foldl handle (_load_rows (_build_ui (_init_db None)))
             [Edit_form (py "a@x.com") (py "used") (py "");
              Add_clicked;
              Edit_form (py "b@x.com") (py "using") (py "2");
              Add_clicked;
              Edit_form (py "c@x.com") (py "unused") (py "");
              Add_clicked;
              Select_items [(0, 0); (0, 2); (2, 0); (7, 0)]] in
  (∀ i, i ∈ resolved_ids w → is_Some (emails (conn w) !! i))
  ∧ COUNT (conn (_delete_selected w Yes))
    + size (list_to_set (resolved_ids w) : gset Z)
    = COUNT (conn w)
  ∧ (∀ k i, _row_id_for_row (_delete_selected w Yes) k = Some i →
            (i ∉ resolved_ids w) ∧ is_Some (emails (conn w) !! i))
  ∧ selectedItems (_delete_selected w Yes) = []
  ∧ consistent (_delete_selected w Yes).
Proof.
  apply (delete_selected_count
           (foldl handle (_load_rows (_build_ui (_init_db None)))
              [Edit_form (py "a@x.com") (py "used") (py "");
               Add_clicked;
               Edit_form (py "b@x.com") (py "using") (py "2");
               Add_clicked;
               Edit_form (py "c@x.com") (py "unused") (py "");
               Add_clicked;
               Select_items [(0, 0); (0, 2); (2, 0); (7, 0)]])).
  - apply run_consistent, fresh_consistent.
  - vm_compute. discriminate.
Defined.

(** ** Handlers in sequence *)

Lemma add_email_after w :
  strip (email_input w) ≠ [] →
  ¬ exhausted (conn w) →
  ¬ email_taken (strip (email_input w)) (emails (conn w)) →
  (_add_email w).2 = Returned None
  ∧ email_taken (strip (email_input w)) (emails (conn (_add_email w).1))
  ∧ next_id (conn (_add_email w).1) = (next_id (conn w) + 1)%Z.
Proof.
  intros He Hroom Hfree. unfold _add_email.
  pose proof (INSERT_free (conn w) (strip (email_input w)) (status_input w)
                (or_None (strip (number_input w))) Hroom Hfree) as Hi.
  destruct (strip (email_input w)) as [|c e] eqn:E; [done|].
  rewrite Hi. cbn [fst snd]. rewrite conn_load_rows.
  cbn [conn clear_inputs set_conn]. split; [done|]. split.
  - apply (email_taken_INSERT _ _ _ _ _ (c :: e) Hi). by left.
  - by apply (next_id_INSERT _ _ _ _ _ Hi).
Qed.

(** X16: after an email has been added, adding it again fails and changes
    nothing, whatever status and number come with it and whatever
    whitespace surrounds it in the form: as a duplicate, with the warning,
    when the first Add did not take the last [id], and with "database or
    disk is full" when it did. *)
Theorem add_email_again w e' s' n' :
  strip (email_input w) ≠ [] →
  ¬ exhausted (conn w) →
  ¬ email_taken (strip (email_input w)) (emails (conn w)) →
  strip e' = strip (email_input w) →
  (_add_email w).2 = Returned None
  ∧ (_add_email (fill_form e' s' n' (_add_email w).1)).1
    = fill_form e' s' n' (_add_email w).1
  ∧ ((next_id (conn w) < MAX_ROWID)%Z →
     (_add_email (fill_form e' s' n' (_add_email w).1)).2
     = Returned (Some Duplicate_Email))
  ∧ (next_id (conn w) = MAX_ROWID →
     (_add_email (fill_form e' s' n' (_add_email w).1)).2
     = Raised OperationalError).
Proof.
  intros He Hroom Hfree He'.
  destruct (add_email_after w He Hroom Hfree) as (Hret & Ht & Hnext).
  split; [done|].
  assert (Hdup : (next_id (conn w) < MAX_ROWID)%Z →
                 _add_email (fill_form e' s' n' (_add_email w).1)
                 = (fill_form e' s' n' (_add_email w).1,
                    Returned (Some Duplicate_Email))).
  { intros Hlt. unfold _add_email at 1.
    cbn [email_input fill_form conn status_input number_input].
    rewrite He'. rewrite INSERT_taken; [by destruct (strip (email_input w))| |done].
    rewrite exhausted_next_id, Hnext. lia. }
  assert (Hfull : next_id (conn w) = MAX_ROWID →
                  _add_email (fill_form e' s' n' (_add_email w).1)
                  = (fill_form e' s' n' (_add_email w).1, Raised OperationalError)).
  { intros Heq. unfold _add_email at 1.
    cbn [email_input fill_form conn status_input number_input].
    rewrite He'. rewrite INSERT_exhausted; [by destruct (strip (email_input w))|].
    rewrite exhausted_next_id, Hnext. lia. }
  split; [|split].
  - rewrite exhausted_next_id in Hroom.
    destruct (decide (next_id (conn w) = MAX_ROWID)) as [Heq|Hne].
    + by rewrite (Hfull Heq).
    + rewrite Hdup; [done|lia].
  - intros Hlt. by rewrite (Hdup Hlt).
  - intros Heq. by rewrite (Hfull Heq).
Qed.

Lemma add_email_again_witness :
  let w := fill_form (py "a@x.com") (py "unused") (py "7") (_build_ui (_init_db None)) in
  (_add_email w).2 = Returned None
  ∧ (_add_email (fill_form (py "  a@x.com ") (py "used") (py "") (_add_email w).1)).1
    = fill_form (py "  a@x.com ") (py "used") (py "") (_add_email w).1
  ∧ ((next_id (conn w) < MAX_ROWID)%Z →
     (_add_email (fill_form (py "  a@x.com ") (py "used") (py "") (_add_email w).1)).2
     = Returned (Some Duplicate_Email))
  ∧ (next_id (conn w) = MAX_ROWID →
     (_add_email (fill_form (py "  a@x.com ") (py "used") (py "") (_add_email w).1)).2
     = Raised OperationalError).
Proof.
  apply (add_email_again
           (fill_form (py "a@x.com") (py "unused") (py "7") (_build_ui (_init_db None)))
           (py "  a@x.com ") (py "used") (py "")).
  - vm_compute. discriminate.
  - apply (bool_decide_unpack _). vm_compute. exact I.
  - apply (bool_decide_unpack _). vm_compute. exact I.
  - vm_compute. reflexivity.
Defined.

Lemma default_or_None s : default [] (or_None s) = s.
Proof. by destruct s. Qed.

Lemma view_row_shown w i r :
  emails (conn w) !! i = Some r → view_row (i, r) ∈ table (_load_rows w).
Proof.
  intros Hr. rewrite _load_rows_eq. cbn [table].
  apply list_elem_of_fmap_2. by apply SELECT_ordered_elem.
Qed.

(** X17: an edit shows after the next reload.  For an entry of the table,
    outside reloading mode: after a status change to a member of
    [STATUSES] the reloaded view has a row for the entry whose status box
    shows the new status, and after a number edit it has a row for the
    entry whose number item shows the trimmed text of the edit; email and
    [id] of the row are those of the entry. *)
Theorem edit_shown_after_reload w i r :
  _loading w = false → emails (conn w) !! i = Some r →
  (∀ s, s ∈ STATUSES →
     {| email_item := {| text := email r; data := Some i |};
        status_box := s;
        number_item := {| text := default [] (number r); data := Some i |} |}
     ∈ table (_load_rows (_update_status w i s)))
  ∧ (∀ c, column c = 2 → data (item c) = Some i →
     {| email_item := {| text := email r; data := Some i |};
        status_box := if decide (status r ∈ STATUSES) then status r else py "unused";
        number_item := {| text := strip (text (item c)); data := Some i |} |}
     ∈ table (_load_rows (_on_item_changed w c))).
Proof.
  intros Hl Hr. split.
  - intros s Hs.
    assert (H : emails (conn (_update_status w i s)) !! i
                = Some {| email := email r; status := s; number := number r |}).
    { unfold _update_status. rewrite Hl.
      rewrite decide_False by (by intros H; apply H).
      cbn [conn set_conn UPDATE_status emails]. by rewrite lookup_alter_eq, Hr. }
    apply view_row_shown in H. cbn [view_row status email number] in H.
    by rewrite decide_True in H.
  - intros c Hc Hd.
    assert (H : emails (conn (_on_item_changed w c)) !! i
                = Some {| email := email r; status := status r;
                          number := or_None (strip (text (item c))) |}).
    { unfold _on_item_changed. rewrite Hl, Hd.
      rewrite decide_False by (by intros H; apply H).
      cbn [conn set_conn UPDATE_number emails]. by rewrite lookup_alter_eq, Hr. }
    apply view_row_shown in H. cbn [view_row status email number] in H.
    by rewrite default_or_None in H.
Qed.

Lemma edit_shown_after_reload_witness :
  let w := add "b@x.com" "unused" "2"
             (add "a@x.com" "unused" "7" (_build_ui (_init_db None))) in
  let r := {| email := py "b@x.com"; status := py "unused"; number := Some (py "2") |} in
  let i := 2%Z in
  (∀ s, s ∈ STATUSES →
     {| email_item := {| text := email r; data := Some i |};
        status_box := s;
        number_item := {| text := default [] (number r); data := Some i |} |}
     ∈ table (_load_rows (_update_status w i s)))
  ∧ (∀ c, column c = 2 → data (item c) = Some i →
     {| email_item := {| text := email r; data := Some i |};
        status_box := if decide (status r ∈ STATUSES) then status r else py "unused";
        number_item := {| text := strip (text (item c)); data := Some i |} |}
     ∈ table (_load_rows (_on_item_changed w c))).
Proof.
  apply (edit_shown_after_reload
           (add "b@x.com" "unused" "2"
              (add "a@x.com" "unused" "7" (_build_ui (_init_db None))))
           2%Z
           {| email := py "b@x.com"; status := py "unused"; number := Some (py "2") |}).
  - vm_compute. reflexivity.
  - vm_compute. reflexivity.
Defined.
